(** * Event router of the Socket.io chat server (server/server.js)

    A shallow embedding of the connection handler of [server.js]: the four
    module-level stores ([users], [messages], [typingUsers], [userRooms]),
    the eight event handlers registered inside [io.on('connection')], and the
    part of the Socket.io room adapter the handlers call ([socket.join],
    [socket.leave], [io.emit], [io.to(room).emit], [socket.to(room).emit],
    [socket.emit]).  Handlers are state-passing functions that return the new
    state together with the notifications they emit; an uncaught JavaScript
    exception is the [Throw] branch of the result type. *)

From stdpp Require Import gmap strings list fin_maps sorting.
From Stdlib Require Import ZArith Lia.

Local Open Scope string_scope.
Local Open Scope list_scope.
Local Open Scope Z_scope.

(** ** JavaScript values the handlers rely on *)

Module JS.

(** Truthiness of a string: only the empty string is falsy. *)
Definition truthy (s : string) : bool := negb (String.eqb s "").

(** Truthiness of a possibly [undefined] string. *)
Definition truthy_opt (o : option string) : bool :=
  match o with
  | Some s => truthy s
  | None => false
  end.

(** [a || b] where [a] may be undefined and [b] is a string. *)
Definition or_else (a : option string) (b : string) : string :=
  match a with
  | Some s => if truthy s then s else b
  | None => b
  end.

(** [a || b] where both may be undefined. *)
Definition or_opt (a b : option string) : option string :=
  if truthy_opt a then a else b.

(** [arr.includes(x)] on an array whose entries may be [undefined]. *)
Definition includes {A} `{EqDecision A} (x : A) (arr : list A) : bool :=
  bool_decide (x ∈ arr).

(** An uncaught exception. *)
Inductive Error : Type :=
  | TypeError (what : string).

Inductive Result (A : Type) : Type :=
  | Ok (a : A)
  | Throw (e : Error).
Global Arguments Ok {A} a.
Global Arguments Throw {A} e.

(** Sequencing stops at the first exception. *)
Global Instance Result_bind : MBind Result := λ A B k r,
  match r with
  | Ok a => k a
  | Throw e => Throw e
  end.

(** A plain object used as a dictionary with string keys, in
    property-insertion order ([Object.values] walks it in that order).
    The keys of [users] and [typingUsers] are socket ids, which Socket.io
    generates; they are never array indices, so insertion order is the
    enumeration order. *)
Section Obj.
Context {V : Type}.

Fixpoint get (k : string) (o : list (string * V)) : option V :=
  match o with
  | [] => None
  | (k', v) :: rest => if String.eqb k k' then Some v else get k rest
  end.

(** [o[k] = v]: overwrite in place, or append a new property. *)
Fixpoint set (k : string) (v : V) (o : list (string * V)) : list (string * V) :=
  match o with
  | [] => [(k, v)]
  | (k', v') :: rest =>
      if String.eqb k k' then (k, v) :: rest else (k', v') :: set k v rest
  end.

(** [delete o[k]]. *)
Fixpoint delete (k : string) (o : list (string * V)) : list (string * V) :=
  match o with
  | [] => []
  | (k', v') :: rest =>
      if String.eqb k k' then delete k rest else (k', v') :: delete k rest
  end.

(** [Object.values(o)]. *)
Definition values (o : list (string * V)) : list V := map snd o.

Definition keys (o : list (string * V)) : list string := map fst o.
End Obj.

(** Property names every object literal inherits from [Object.prototype].
    Reading one of them on [{}] yields a function (or, for [__proto__], the
    prototype object): a truthy value that is not an array. *)
Definition object_prototype_keys : list string :=
  [ "constructor"; "__defineGetter__"; "__defineSetter__"; "hasOwnProperty";
    "__lookupGetter__"; "__lookupSetter__"; "isPrototypeOf";
    "propertyIsEnumerable"; "toString"; "valueOf"; "__proto__";
    "toLocaleString" ].

Definition inherited (k : string) : bool :=
  bool_decide (k ∈ object_prototype_keys).

(** The result of reading [o[k]] on an object literal whose own properties
    are arrays of strings. *)
Inductive Prop_value : Type :=
  | Own (arr : list string)
  | Inherited
  | Undefined.

Definition read_prop (o : gmap string (list string)) (k : string) : Prop_value :=
  match o !! k with
  | Some arr => Own arr
  | None => if inherited k then Inherited else Undefined
  end.

End JS.

Import JS.

(** ** Data *)

(** [{ username, id: socket.id }] *)
Record User : Type := {
  username : string;
  user_id : string;
}.

Global Instance User_eq_dec : EqDecision User.
Proof. solve_decision. Defined.

(** The attachment fields the client spreads into a room message. *)
Record FileRef : Type := {
  fileUrl : string;
  fileName : string;
  fileType : string;
}.

(** Payload of [send_message].  The handler spreads the whole payload into
    the stored object and then overwrites [id], [sender], [senderId],
    [timestamp], [room] and [readBy].  The payload fields kept here are the
    ones the client builds ([message], [room], [fileUrl], [fileName],
    [fileType], [isPrivate], [to]) and [reactions], which the server reads
    back from the stored object; [isPrivate] is [false] when absent or
    falsy. *)
Record MessageData : Type := {
  md_message : string;
  md_room : option string;
  md_file : option FileRef;
  md_isPrivate : bool;
  md_to : option string;
  md_reactions : option (gmap string (list string));
}.

(** An element of [messages].  A field the object does not have is [None]
    ([room] and [to] of a message built by [private_message], [reactions]
    while nothing set them) or [false] ([isPrivate] of a room message whose
    payload did not set it).  An entry of [readBy] is [None] when the array
    holds [undefined]. *)
Record Message : Type := {
  m_id : Z;
  m_sender : string;
  m_senderId : string;
  m_message : string;
  m_timestamp : string;
  m_room : option string;
  m_isPrivate : bool;
  m_file : option FileRef;
  m_to : option string;
  m_readBy : list (option string);
  m_reactions : option (gmap string (list string));
}.

(** The two clock readings a handler takes: [Date.now()] and
    [new Date().toISOString()]. *)
Record Clock : Type := {
  now : Z;
  iso : string;
}.

(** The module-level stores, and the adapter's table from socket id to the
    rooms the socket is in.  Socket.io puts every socket in the room named by
    its own id when it connects and takes it out of all rooms before the
    [disconnect] listeners run. *)
Record State : Type := {
  users : list (string * User);
  messages : list Message;
  typingUsers : list (string * string);
  userRooms : gmap string string;
  sids : gmap string (gset string);
}.

Definition init : State :=
  {| users := []; messages := []; typingUsers := []; userRooms := ∅; sids := ∅ |}.

(** ** Outbound notifications *)

Inductive Payload : Type :=
  | P_user_list (l : list User)
  | P_user_joined (u : User)
  | P_user_left (u : User)
  | P_receive_message (m : Message)
  | P_private_message (m : Message)
  | P_typing_users (l : list string)
  | P_message_read (messageId : Z) (readBy : list (option string))
  | P_message_reacted (messageId : Z) (reactions : gmap string (list string)).

(** One [emit]: the connections it reaches and what they receive. *)
Record Emission : Type := {
  e_to : gset string;
  e_data : Payload;
}.

Section Transport.
Variable st : State.

Definition connected : gset string := dom (sids st).

(** The sockets currently in [room]. *)
Definition room_members (room : string) : gset string :=
  dom (filter (λ kv, room ∈ kv.2) (sids st)).

(** [io.emit(...)] *)
Definition io_emit (d : Payload) : Emission :=
  {| e_to := connected; e_data := d |}.

(** [io.to(room).emit(...)] *)
Definition io_to (room : string) (d : Payload) : Emission :=
  {| e_to := room_members room; e_data := d |}.

(** [socket.to(room).emit(...)]: the operator excepts the room named by
    the sending socket's id, so the sockets of [room] that are in that room
    (the sender, while it has not left it, and whoever joined it) are
    skipped. *)
Definition socket_to (sid room : string) (d : Payload) : Emission :=
  {| e_to := room_members room ∖ room_members sid; e_data := d |}.

(** [socket.emit(...)] *)
Definition socket_emit (sid : string) (d : Payload) : Emission :=
  {| e_to := {[sid]}; e_data := d |}.
End Transport.

Definition with_sids (f : gmap string (gset string) → gmap string (gset string))
    (st : State) : State :=
  {| users := users st; messages := messages st; typingUsers := typingUsers st;
     userRooms := userRooms st; sids := f (sids st) |}.

(** [socket.join(room)] *)
Definition socket_join (sid room : string) : State → State :=
  with_sids (alter (λ rs, {[room]} ∪ rs) sid).

(** [socket.leave(room)] *)
Definition socket_leave (sid room : string) : State → State :=
  with_sids (alter (λ rs, rs ∖ {[room]}) sid).

(** ** The Message Ledger *)

(** [messages.push(m); if (messages.length > 100) messages.shift();] *)
Definition ledger_push (m : Message) (l : list Message) : list Message :=
  let l' := l ++ [m] in
  if (100 <? length l')%nat then tail l' else l'.

(** [messages.find((m) => m.id === messageId)] *)
Fixpoint find_by_id (messageId : Z) (l : list Message) : option Message :=
  match l with
  | [] => None
  | m :: rest => if Z.eqb (m_id m) messageId then Some m else find_by_id messageId rest
  end.

(** The array after the object returned by [find] was mutated into [m']. *)
Fixpoint replace_found (messageId : Z) (m' : Message) (l : list Message) : list Message :=
  match l with
  | [] => []
  | m :: rest =>
      if Z.eqb (m_id m) messageId then m' :: rest
      else m :: replace_found messageId m' rest
  end.

Definition with_messages (l : list Message) (st : State) : State :=
  {| users := users st; messages := l; typingUsers := typingUsers st;
     userRooms := userRooms st; sids := sids st |}.

Definition set_readBy (r : list (option string)) (m : Message) : Message :=
  {| m_id := m_id m; m_sender := m_sender m; m_senderId := m_senderId m;
     m_message := m_message m; m_timestamp := m_timestamp m; m_room := m_room m;
     m_isPrivate := m_isPrivate m; m_file := m_file m; m_to := m_to m;
     m_readBy := r; m_reactions := m_reactions m |}.

Definition set_reactions (r : gmap string (list string)) (m : Message) : Message :=
  {| m_id := m_id m; m_sender := m_sender m; m_senderId := m_senderId m;
     m_message := m_message m; m_timestamp := m_timestamp m; m_room := m_room m;
     m_isPrivate := m_isPrivate m; m_file := m_file m; m_to := m_to m;
     m_readBy := m_readBy m; m_reactions := Some r |}.

(** ** Event handlers *)

Section Handlers.
(** The socket whose listener runs, and the clock it reads. *)
Variable sid : string.
Variable clk : Clock.

(** [users[socket.id]?.username] *)
Definition my_username (st : State) : option string :=
  username <$> JS.get sid (users st).

(** [socket.on('user_join', (username) => ...)] *)
Definition user_join (name : string) (st : State) : State * list Emission :=
  let u := {| username := name; user_id := sid |} in
  let st1 :=
    {| users := JS.set sid u (users st); messages := messages st;
       typingUsers := typingUsers st;
       userRooms := <[sid := "General"]> (userRooms st); sids := sids st |} in
  let st2 := socket_join sid "General" st1 in
  (st2, [ io_emit st2 (P_user_list (JS.values (users st2)));
          io_emit st2 (P_user_joined u) ]).

(** [socket.on('join_room', (room) => ...)] *)
Definition join_room (room : string) (st : State) : State * list Emission :=
  let prevRoom := userRooms st !! sid in
  let st1 :=
    match prevRoom with
    | Some p => if JS.truthy p then socket_leave sid p st else st
    | None => st
    end in
  let st2 := socket_join sid room st1 in
  ({| users := users st2; messages := messages st2; typingUsers := typingUsers st2;
      userRooms := <[sid := room]> (userRooms st2); sids := sids st2 |}, []).

(** The room [send_message] resolves:
    [messageData.room || userRooms[socket.id] || 'General']. *)
Definition target_room (md : MessageData) (st : State) : string :=
  JS.or_else (JS.or_opt (md_room md) (userRooms st !! sid)) "General".

(** The object literal built by [send_message]. *)
Definition room_message (md : MessageData) (st : State) : Message :=
  {| m_id := now clk;
     m_sender := JS.or_else (my_username st) "Anonymous";
     m_senderId := sid;
     m_message := md_message md;
     m_timestamp := iso clk;
     m_room := Some (target_room md st);
     m_isPrivate := md_isPrivate md;
     m_file := md_file md;
     m_to := md_to md;
     m_readBy := [my_username st];
     m_reactions := md_reactions md |}.

(** [socket.on('send_message', (messageData) => ...)] *)
Definition send_message (md : MessageData) (st : State) : State * list Emission :=
  let message := room_message md st in
  let st1 := with_messages (ledger_push message (messages st)) st in
  (st1, [ io_to st1 (target_room md st) (P_receive_message message) ]).

(** [socket.on('typing', (isTyping) => ...)] *)
Definition typing (isTyping : bool) (st : State) : State * list Emission :=
  match JS.get sid (users st) with
  | Some u =>
      let t :=
        if isTyping then JS.set sid (username u) (typingUsers st)
        else JS.delete sid (typingUsers st) in
      let st1 :=
        {| users := users st; messages := messages st; typingUsers := t;
           userRooms := userRooms st; sids := sids st |} in
      (st1, [ io_emit st1 (P_typing_users (JS.values t)) ])
  | None => (st, [])
  end.

(** The object literal built by [private_message]. *)
Definition direct_message (body : string) (st : State) : Message :=
  {| m_id := now clk;
     m_sender := JS.or_else (my_username st) "Anonymous";
     m_senderId := sid;
     m_message := body;
     m_timestamp := iso clk;
     m_room := None;
     m_isPrivate := true;
     m_file := None;
     m_to := None;
     m_readBy := [my_username st];
     m_reactions := None |}.

(** [socket.on('private_message', ({ to, message }) => ...)] *)
Definition private_message (to body : string) (st : State) : State * list Emission :=
  let messageData := direct_message body st in
  let out := [ socket_to st sid to (P_private_message messageData);
               socket_emit sid (P_private_message messageData) ] in
  (with_messages (ledger_push messageData (messages st)) st, out).

(** Where [read_message] and [react_message] send their update when the
    message is private or has a room; [None] is the fall-through. *)
Definition scope_target (msg : Message) : option string :=
  if m_isPrivate msg then Some (m_senderId msg)
  else if JS.truthy_opt (m_room msg) then m_room msg
  else None.

(** [socket.on('read_message', (messageId) => ...)] *)
Definition read_message (messageId : Z) (st : State) : State * list Emission :=
  match find_by_id messageId (messages st), my_username st with
  | Some msg, Some user =>
      if JS.truthy user && negb (JS.includes (Some user) (m_readBy msg)) then
        let readBy := m_readBy msg ++ [Some user] in
        let st1 :=
          with_messages
            (replace_found messageId (set_readBy readBy msg) (messages st)) st in
        (st1,
         match scope_target msg with
         | Some r => [ io_to st1 r (P_message_read messageId readBy) ]
         | None => []
         end)
      else (st, [])
  | _, _ => (st, [])
  end.

(** [socket.on('react_message', ({ messageId, reaction, username }) => ...)] *)
Definition react_message (messageId : Z) (reaction name : string) (st : State)
    : Result (State * list Emission) :=
  match find_by_id messageId (messages st) with
  | Some msg =>
      let reactions := default ∅ (m_reactions msg) in
      arr ← match JS.read_prop reactions reaction with
            | Own arr => Ok arr
            | Undefined => Ok []
            | Inherited =>
                Throw (TypeError "msg.reactions[reaction].includes is not a function")
            end;
      let arr' := if JS.includes name arr then arr else arr ++ [name] in
      let reactions' := <[reaction := arr']> reactions in
      let st1 :=
        with_messages
          (replace_found messageId (set_reactions reactions' msg) (messages st)) st in
      let d := P_message_reacted messageId reactions' in
      Ok (st1,
          [ match scope_target msg with
            | Some r => io_to st1 r d
            | None => io_emit st1 d
            end ])
  | None => Ok (st, [])
  end.

(** [socket.on('disconnect', () => ...)]; the socket has already left its
    rooms when the listener runs. *)
Definition disconnect (st : State) : State * list Emission :=
  let left :=
    match JS.get sid (users st) with
    | Some u =>
        [ io_emit st (P_user_left {| username := username u; user_id := sid |}) ]
    | None => []
    end in
  let st1 :=
    {| users := JS.delete sid (users st); messages := messages st;
       typingUsers := JS.delete sid (typingUsers st);
       userRooms := base.delete sid (userRooms st); sids := sids st |} in
  (st1, left ++ [ io_emit st1 (P_user_list (JS.values (users st1)));
                  io_emit st1 (P_typing_users (JS.values (typingUsers st1))) ]).
End Handlers.

(** ** Dispatch *)

Inductive Event : Type :=
  | Connection
  | User_join (name : string)
  | Join_room (room : string)
  | Send_message (md : MessageData)
  | Typing (isTyping : bool)
  | Private_message (to body : string)
  | Read_message (messageId : Z)
  | React_message (messageId : Z) (reaction name : string)
  | Disconnect.

(** The listener for an event of a connected socket. *)
Definition handle (sid : string) (clk : Clock) (ev : Event) (st : State)
    : Result (State * list Emission) :=
  match ev with
  | Connection => Ok (st, [])
  | User_join name => Ok (user_join sid name st)
  | Join_room room => Ok (join_room sid room st)
  | Send_message md => Ok (send_message sid clk md st)
  | Typing b => Ok (typing sid b st)
  | Private_message to body => Ok (private_message sid clk to body st)
  | Read_message i => Ok (read_message sid i st)
  | React_message i r n => react_message i r n st
  | Disconnect => Ok (disconnect sid st)
  end.

(** What the transport does around the listener: a new socket enters the room
    of its own id; a closing socket is removed from every room before its
    [disconnect] listeners run; no listener runs for a socket that is not
    connected. *)
Definition step (sid : string) (clk : Clock) (ev : Event) (st : State)
    : Result (State * list Emission) :=
  match ev with
  | Connection =>
      if bool_decide (sid ∈ connected st) then Ok (st, [])
      else handle sid clk ev (with_sids (<[sid := {[sid]}]>) st)
  | Disconnect =>
      if bool_decide (sid ∈ connected st)
      then handle sid clk ev (with_sids (base.delete sid) st)
      else Ok (st, [])
  | _ =>
      if bool_decide (sid ∈ connected st) then handle sid clk ev st
      else Ok (st, [])
  end.

Record Input : Type := {
  i_sid : string;
  i_clk : Clock;
  i_ev : Event;
}.

(** Events are processed one at a time, each to completion. *)
Fixpoint run (tr : list Input) (st : State) : Result (State * list Emission) :=
  match tr with
  | [] => Ok (st, [])
  | i :: rest =>
      r ← step (i_sid i) (i_clk i) (i_ev i) st;
      r' ← run rest r.1;
      Ok (r'.1, r.2 ++ r'.2)
  end.


(** States the server passes through. *)
Inductive reachable : State → Prop :=
  | reach_init : reachable init
  | reach_step st sid clk ev st' out :
      reachable st → step sid clk ev st = Ok (st', out) → reachable st'.

(** What every reachable state satisfies. *)
Record Invariant (st : State) : Prop := {
  users_keyed : ∀ k u, (k, u) ∈ users st → user_id u = k;
  readBy_nodup : ∀ m, m ∈ messages st → NoDup (m_readBy m);
  ledger_bounded : (length (messages st) ≤ 100)%nat;
}.

(** The adapter's table agrees with [userRooms]: every connected socket is
    in the room of its own id and in the room [userRooms] records for it, and
    in no other; only connected sockets have an entry in [userRooms]. *)
Definition subscriptions_in_step (st : State) : Prop :=
  (∀ c rs, sids st !! c = Some rs →
     ∀ r, r ∈ rs ↔ r = c ∨ userRooms st !! c = Some r) ∧
  (∀ c, is_Some (userRooms st !! c) → c ∈ connected st).

(** ** Message events *)

Definition is_message_event (ev : Event) : bool :=
  match ev with
  | Send_message _ | Private_message _ _ => true
  | _ => false
  end.

(** The message an input appends when it is processed in [st]. *)
Definition created (st : State) (i : Input) : option Message :=
  match i_ev i with
  | Send_message md => Some (room_message (i_sid i) (i_clk i) md st)
  | Private_message _ body => Some (direct_message (i_sid i) (i_clk i) body st)
  | _ => None
  end.

(** The [Date.now()] readings of a trace. *)
Definition readings (tr : list Input) : list Z := (λ i, now (i_clk i)) <$> tr.

(** ** Sample sessions *)

Module Sample.
Definition tick (t : Z) : Clock := {| now := t; iso := "2024-05-01T10:00:00.000Z" |}.

Definition input (sid : string) (t : Z) (ev : Event) : Input :=
  {| i_sid := sid; i_clk := tick t; i_ev := ev |}.

Definition hi : MessageData :=
  {| md_message := "hi"; md_room := None; md_file := None;
     md_isPrivate := false; md_to := None; md_reactions := None |}.

Definition hi_to (room : string) : MessageData :=
  {| md_message := "hi"; md_room := Some room; md_file := None;
     md_isPrivate := false; md_to := None; md_reactions := None |}.

(** Two sockets connect and join as alice and bob. *)
Definition lobby : list Input :=
  [ input "sockA" 1 Connection; input "sockB" 2 Connection;
    input "sockA" 3 (User_join "alice"); input "sockB" 4 (User_join "bob") ].

(** [sockA] sends one room message at each of the given clock readings. *)
Definition burst (ts : list Z) : list Input :=
  (λ t, input "sockA" t (Send_message hi)) <$> ts.

Definition ms_from (start len : nat) : list Z := Z.of_nat <$> seq start len.

(** 150 readings, strictly increasing. *)
Definition steady : list Z := ms_from 100 150.

(** 150 non-decreasing readings; the 50th and the 51st message fall in
    the same millisecond, 149. *)
Definition straddle : list Z := ms_from 100 50 ++ [149] ++ ms_from 150 99.


(** The state after a trace that raises nothing. *)
Definition state_after (tr : list Input) : State :=
  match run tr init with
  | Ok r => r.1
  | Throw _ => init
  end.
End Sample.

(** ** Snapshot routes *)

(** [app.get('/api/messages', ...)]: [res.json(messages)]. *)
Definition api_messages (st : State) : list Message := messages st.

(** [app.get('/api/users', ...)]: [res.json(Object.values(users))]. *)
Definition api_users (st : State) : list User := JS.values (users st).

(** ** What the listeners never assign *)

(** The fields of a message that are set when the object literal is built;
    [read_message] assigns [readBy] and [react_message] assigns [reactions],
    and nothing assigns the others. *)
Definition envelope (m : Message)
    : Z * string * string * string * string * option string * bool
      * option FileRef * option string :=
  (m_id m, m_sender m, m_senderId m, m_message m, m_timestamp m, m_room m,
   m_isPrivate m, m_file m, m_to m).

(** How the four stores and the adapter's table hang together. *)
Record Wellformed (st : State) : Prop := {
  users_distinct : NoDup (JS.keys (users st));
  typing_distinct : NoDup (JS.keys (typingUsers st));
  typing_registered : ∀ k, is_Some (JS.get k (typingUsers st)) → is_Some (JS.get k (users st));
  registered_has_room : ∀ k, is_Some (JS.get k (users st)) → is_Some (userRooms st !! k);
  room_connected : ∀ k, is_Some (userRooms st !! k) → k ∈ connected st;
  messages_scoped : ∀ m, m ∈ messages st → is_Some (scope_target m);
}.

(** An event that keeps the adapter's table in agreement with [userRooms]:
    [user_join] of a socket whose recorded room is absent or ["General"],
    [join_room] of a socket whose recorded room is absent or is a non-empty
    name other than the socket's own id. *)
Definition orderly (sid : string) (ev : Event) (st : State) : Prop :=
  match ev with
  | User_join _ =>
      userRooms st !! sid = None ∨ userRooms st !! sid = Some "General"
  | Join_room _ =>
      match userRooms st !! sid with
      | Some p => p ≠ "" ∧ p ≠ sid
      | None => True
      end
  | _ => True
  end.

(** ** Dictionary objects *)

Section Obj_facts.
Context {V : Type}.
Implicit Types (o : list (string * V)) (k : string) (v : V).

Lemma get_set_eq k v o : JS.get k (JS.set k v o) = Some v.
Proof.
  induction o as [|[k' v'] o IH]; simpl.
  - by rewrite String.eqb_refl.
  - destruct (String.eqb k k') eqn:E; simpl.
    + by rewrite String.eqb_refl.
    + by rewrite E.
Qed.

Lemma get_set_ne k k' v o : k ≠ k' → JS.get k' (JS.set k v o) = JS.get k' o.
Proof.
  intros Hne. induction o as [|[k0 v0] o IH]; simpl.
  - destruct (String.eqb_spec k' k); congruence.
  - destruct (String.eqb_spec k k0) as [->|]; simpl.
    + destruct (String.eqb_spec k' k0); congruence.
    + by rewrite IH.
Qed.

Lemma get_delete_eq k o : JS.get k (JS.delete k o) = None.
Proof.
  induction o as [|[k' v'] o IH]; simpl; [done|].
  destruct (String.eqb k k') eqn:E; simpl; [done|]. by rewrite E.
Qed.

Lemma get_delete_ne k k' o : k ≠ k' → JS.get k' (JS.delete k o) = JS.get k' o.
Proof.
  intros Hne. induction o as [|[k0 v0] o IH]; simpl; [done|].
  destruct (String.eqb_spec k k0) as [->|]; simpl.
  - destruct (String.eqb_spec k' k0); congruence.
  - by rewrite IH.
Qed.

(** [delete] drops the binding of [k] and keeps the others in order. *)
Lemma delete_filter k o : JS.delete k o = filter (λ kv, kv.1 ≠ k) o.
Proof.
  induction o as [|[k' v'] o IH]; simpl; [done|].
  destruct (String.eqb_spec k k') as [->|].
  - rewrite filter_cons_False; [done | simpl; tauto].
  - rewrite filter_cons_True; [by rewrite IH | simpl; congruence].
Qed.

Lemma elem_of_delete k k' v o : (k', v) ∈ JS.delete k o → k' ≠ k ∧ (k', v) ∈ o.
Proof. rewrite delete_filter, list_elem_of_filter. simpl. tauto. Qed.

Lemma elem_of_set k v k' v' o :
  (k', v') ∈ JS.set k v o → (k' = k ∧ v' = v) ∨ (k', v') ∈ o.
Proof.
  induction o as [|[k0 v0] o IH]; simpl.
  - rewrite list_elem_of_singleton. intros [= -> ->]. by left.
  - destruct (String.eqb_spec k k0) as [->|Hne]; rewrite !elem_of_cons.
    + intros [[= -> ->]|Hin]; [by left | right; by right].
    + intros [Heq|Hin]; [right; by left|].
      destruct (IH Hin) as [?|?]; [by left | right; by right].
Qed.

(** Assigning to a key that is present keeps the order of the keys. *)
Lemma keys_set_present k v o :
  is_Some (JS.get k o) → JS.keys (JS.set k v o) = JS.keys o.
Proof.
  induction o as [|[k0 v0] o IH]; simpl.
  - intros [? [=]].
  - destruct (String.eqb_spec k k0) as [->|Hne]; simpl; [done|].
    intros H. unfold JS.keys in *. simpl. f_equal. by apply IH.
Qed.

(** Assigning to an absent key appends it. *)
Lemma set_absent k v o : JS.get k o = None → JS.set k v o = o ++ [(k, v)].
Proof.
  induction o as [|[k0 v0] o IH]; simpl; [done|].
  destruct (String.eqb_spec k k0) as [->|Hne]; [done|].
  intros H. by rewrite IH.
Qed.
End Obj_facts.

(** ** The ledger *)

Section Ledger_facts.
Implicit Types (l ms : list Message) (m : Message) (i : Z).

Lemma ledger_push_cases m l :
  ((length l < 100)%nat ∧ ledger_push m l = l ++ [m]) ∨
  ((100 ≤ length l)%nat ∧ ledger_push m l = tail (l ++ [m])).
Proof.
  unfold ledger_push. rewrite length_app. simpl.
  destruct (Nat.ltb_spec 100 (length l + 1)); [right | left]; split; (lia || done).
Qed.

Lemma ledger_push_drop m l :
  (length l ≤ 100)%nat →
  ledger_push m l = drop (length (l ++ [m]) - 100) (l ++ [m]).
Proof.
  intros Hl. rewrite length_app. simpl.
  destruct (ledger_push_cases m l) as [[H ->]|[H ->]].
  - by replace (length l + 1 - 100)%nat with 0%nat by lia.
  - replace (length l + 1 - 100)%nat with 1%nat by lia.
    by destruct (l ++ [m]).
Qed.

Lemma ledger_push_length m l :
  (length l ≤ 100)%nat → (length (ledger_push m l) ≤ 100)%nat.
Proof.
  intros Hl. rewrite ledger_push_drop by done.
  rewrite length_drop, length_app. simpl. lia.
Qed.

Lemma elem_of_ledger_push m m0 l : m ∈ ledger_push m0 l → m = m0 ∨ m ∈ l.
Proof.
  destruct (ledger_push_cases m0 l) as [[_ ->]|[_ ->]].
  - rewrite elem_of_app, list_elem_of_singleton. tauto.
  - intros H. assert (m ∈ l ++ [m0]) as Hin.
    { destruct (l ++ [m0]); [done | by right]. }
    revert Hin. rewrite elem_of_app, list_elem_of_singleton. tauto.
Qed.

Lemma ledger_push_last m l : last (ledger_push m l) = Some m.
Proof.
  destruct (ledger_push_cases m l) as [[_ ->]|[H ->]].
  - apply last_snoc.
  - destruct l as [|m1 l]; [simpl in H; lia|]. simpl. apply last_snoc.
Qed.

(** Appending a batch to a ledger within capacity keeps its last 100. *)
Lemma ledger_fold_drop ms l :
  (length l ≤ 100)%nat →
  foldl (λ acc m, ledger_push m acc) l ms
  = drop (length (l ++ ms) - 100) (l ++ ms).
Proof.
  revert l. induction ms as [|m ms IH]; intros l Hl; simpl.
  - rewrite app_nil_r. by replace (length l - 100)%nat with 0%nat by lia.
  - rewrite IH by by apply ledger_push_length.
    destruct (ledger_push_cases m l) as [[H ->]|[H ->]].
    + by rewrite <- app_assoc.
    + destruct l as [|m1 l1]; [simpl in H; lia|]. simpl.
      rewrite <- app_assoc. simpl.
      rewrite !length_app. simpl in *.
      replace (length l1 + S (length ms) - 99)%nat
        with (S (length l1 + S (length ms) - 100))%nat by lia.
      done.
Qed.

Lemma find_by_id_Some i l m : find_by_id i l = Some m → m ∈ l ∧ m_id m = i.
Proof.
  induction l as [|m0 l IH]; simpl; [done|].
  destruct (Z.eqb_spec (m_id m0) i).
  - intros [= <-]. split; [by left | done].
  - intros H. destruct (IH H). split; [by right | done].
Qed.

Lemma find_by_id_None i l : find_by_id i l = None ↔ i ∉ (m_id <$> l).
Proof.
  induction l as [|m0 l IH]; simpl.
  - split; [intros _; apply not_elem_of_nil | done].
  - rewrite not_elem_of_cons. destruct (Z.eqb_spec (m_id m0) i); [|rewrite IH];
      split; (done || intros [? ?]; congruence || auto).
Qed.

Lemma replace_found_None i m' l : find_by_id i l = None → replace_found i m' l = l.
Proof.
  induction l as [|m0 l IH]; simpl; [done|].
  destruct (Z.eqb_spec (m_id m0) i); [done|]. intros H. by rewrite IH.
Qed.

Lemma replace_found_length i m' l : length (replace_found i m' l) = length l.
Proof.
  induction l as [|m0 l IH]; simpl; [done|].
  destruct (Z.eqb (m_id m0) i); simpl; by rewrite ?IH.
Qed.

Lemma elem_of_replace_found i m' m l :
  m ∈ replace_found i m' l → m = m' ∨ m ∈ l.
Proof.
  induction l as [|m0 l IH]; simpl; [by right|].
  destruct (Z.eqb (m_id m0) i); rewrite !elem_of_cons; [tauto|].
  intros [->|H]; [tauto|]. destruct (IH H); tauto.
Qed.

(** The mutated object is the one [find] returns afterwards. *)
Lemma find_replace_found i m' l :
  is_Some (find_by_id i l) → m_id m' = i →
  find_by_id i (replace_found i m' l) = Some m'.
Proof.
  intros Hs Hid. induction l as [|m0 l IH]; simpl in *.
  - by destruct Hs.
  - destruct (Z.eqb_spec (m_id m0) i) as [E|E]; simpl.
    + by rewrite Hid, Z.eqb_refl.
    + destruct (Z.eqb_spec (m_id m0) i); [done|]. by apply IH.
Qed.

Lemma replace_found_ids i m' l :
  m_id m' = i → m_id <$> replace_found i m' l = m_id <$> l.
Proof.
  intros Hid. induction l as [|m0 l IH]; simpl; [done|].
  destruct (Z.eqb_spec (m_id m0) i); simpl; f_equal; (congruence || done).
Qed.
End Ledger_facts.

(** ** The invariant holds in every reachable state *)

Section Invariant_facts.
Implicit Types (st : State) (sid : string) (clk : Clock).

Lemma Ok_inv {A B} (x : A * B) a b : Ok x = Ok (a, b) → a = x.1 ∧ b = x.2.
Proof. intros [= ->]. done. Qed.

Lemma Invariant_init : Invariant init.
Proof.
  split; simpl; try (intros; exfalso; eapply not_elem_of_nil; eassumption); lia.
Qed.

(** The invariant only reads [users] and [messages]. *)
Lemma Invariant_same st st' :
  users st' = users st → messages st' = messages st →
  Invariant st → Invariant st'.
Proof. intros Hu Hm [? ? ?]. split; rewrite ?Hu, ?Hm; done. Qed.

Lemma Invariant_push st m :
  NoDup (m_readBy m) →
  Invariant st → Invariant (with_messages (ledger_push m (messages st)) st).
Proof.
  intros Hr [Hk Hrd Hb]. split; simpl.
  - done.
  - intros m' [->|?]%elem_of_ledger_push; auto.
  - by apply ledger_push_length.
Qed.

Lemma Invariant_replace st i m' :
  NoDup (m_readBy m') →
  Invariant st → Invariant (with_messages (replace_found i m' (messages st)) st).
Proof.
  intros Hr [Hk Hrd Hb]. split; simpl.
  - done.
  - intros m [->|?]%elem_of_replace_found; auto.
  - by rewrite replace_found_length.
Qed.

Lemma includes_false {A} `{EqDecision A} (x : A) (arr : list A) :
  JS.includes x arr = false → x ∉ arr.
Proof. unfold JS.includes. by intros ?%bool_decide_eq_false. Qed.

Lemma NoDup_push {A} `{EqDecision A} (x : A) (arr : list A) :
  NoDup arr → NoDup (if JS.includes x arr then arr else arr ++ [x]).
Proof.
  intros Hn. destruct (JS.includes x arr) eqn:E; [done|].
  apply includes_false in E. apply NoDup_app. split; [done|]. split.
  - intros y Hy ->%list_elem_of_singleton. done.
  - apply NoDup_singleton.
Qed.

Lemma read_message_Invariant sid i st :
  Invariant st → Invariant (read_message sid i st).1.
Proof.
  intros Hinv. unfold read_message.
  destruct (find_by_id i (messages st)) as [msg|] eqn:Hf; [|done].
  destruct (my_username sid st) as [user|]; [|done].
  destruct (JS.truthy user && negb (JS.includes (Some user) (m_readBy msg)))
    eqn:Hc; [|done].
  apply andb_true_iff in Hc as [_ Hc]. apply negb_true_iff in Hc.
  apply find_by_id_Some in Hf as [Hin _].
  apply Invariant_replace; [|done]; simpl.
  pose proof (NoDup_push (Some user) (m_readBy msg)) as Hp.
  rewrite Hc in Hp. apply Hp. by apply (readBy_nodup st).
Qed.

Lemma react_message_Invariant i r n st st' out :
  Invariant st → react_message i r n st = Ok (st', out) → Invariant st'.
Proof.
  intros Hinv. unfold react_message.
  destruct (find_by_id i (messages st)) as [msg|] eqn:Hf;
    [|intros [= <- <-]; done].
  apply find_by_id_Some in Hf as [Hin _].
  destruct (JS.read_prop _ r); simpl; try discriminate;
    intros [= <- <-]; (apply Invariant_replace; [|done]); simpl;
    by apply (readBy_nodup st).
Qed.

Lemma handle_Invariant sid clk ev st st' out :
  Invariant st → handle sid clk ev st = Ok (st', out) → Invariant st'.
Proof.
  intros Hinv.
  destruct ev; simpl; [| | | | | | |by apply react_message_Invariant|];
    intros [-> _]%Ok_inv.
  - done.
  - destruct Hinv as [Hk Hrd Hb]. split; simpl; try done.
    intros k u [[-> ->]|?]%elem_of_set; [done | auto].
  - unfold join_room. simpl.
    destruct (userRooms st !! sid) as [p|]; [destruct (JS.truthy p)|];
      (eapply Invariant_same; [| |exact Hinv]; reflexivity).
  - apply Invariant_push; [apply NoDup_singleton | done].
  - unfold typing. destruct (JS.get sid (users st)); simpl; [|done].
    eapply Invariant_same; [| |exact Hinv]; reflexivity.
  - apply Invariant_push; [apply NoDup_singleton | done].
  - by apply read_message_Invariant.
  - destruct Hinv as [Hk Hrd Hb]. split; simpl; try done.
    intros k u [_ ?]%elem_of_delete. auto.
Qed.

Lemma step_Invariant sid clk ev st st' out :
  Invariant st → step sid clk ev st = Ok (st', out) → Invariant st'.
Proof.
  intros Hinv. unfold step.
  destruct ev; case_bool_decide; try (intros [= <- <-]; done);
    apply handle_Invariant; try done;
    (eapply Invariant_same; [| |exact Hinv]; reflexivity).
Qed.

Lemma reachable_Invariant st : reachable st → Invariant st.
Proof.
  induction 1 as [|st sid clk ev st' out _ IH Hstep];
    [apply Invariant_init | by eapply step_Invariant].
Qed.
End Invariant_facts.

(** ** Traces of message events *)

Section Message_traces.
Implicit Types (st : State) (tr : list Input).

Lemma StronglySorted_drop {A} (R : relation A) n (l : list A) :
  StronglySorted R l → StronglySorted R (drop n l).
Proof.
  intros H. rewrite <- (take_drop n l) in H.
  by apply StronglySorted_app_1_r in H.
Qed.

Lemma StronglySorted_lt_NoDup (l : list Z) : StronglySorted Z.lt l → NoDup l.
Proof.
  induction 1 as [|x l _ IH Hx]; constructor; [|done].
  intros Hin. rewrite Forall_forall in Hx. specialize (Hx x Hin). lia.
Qed.

(** A message event of a connected socket appends the message it builds
    and changes no other store. *)
Lemma step_message_event st i :
  is_message_event (i_ev i) = true → i_sid i ∈ connected st →
  ∃ m out, created st i = Some m ∧
    step (i_sid i) (i_clk i) (i_ev i) st
    = Ok (with_messages (ledger_push m (messages st)) st, out).
Proof.
  intros Hev Hc. unfold step, created.
  destruct (i_ev i); try discriminate;
    rewrite bool_decide_eq_true_2 by done; simpl; eauto.
Qed.

Lemma run_message_events tr st :
  Forall (λ i, is_message_event (i_ev i) = true ∧ i_sid i ∈ connected st) tr →
  ∃ out, run tr st
    = Ok (with_messages
            (foldl (λ acc m, ledger_push m acc) (messages st) (omap (created st) tr))
            st, out).
Proof.
  revert st. induction tr as [|i tr IH]; intros st Htr.
  - exists []. by destruct st.
  - apply Forall_cons in Htr as [[Hev Hc] Htr].
    destruct (step_message_event st i Hev Hc) as (m & out & Hm & Hstep).
    destruct (IH (with_messages (ledger_push m (messages st)) st)) as [out' Hrun].
    { eapply Forall_impl; [exact Htr|]. by intros j [? ?]. }
    exists (out ++ out'). simpl. rewrite Hstep. simpl. rewrite Hrun. simpl.
    rewrite Hm. reflexivity.
Qed.

Lemma created_ids tr st :
  Forall (λ i, is_message_event (i_ev i) = true) tr →
  m_id <$> omap (created st) tr = readings tr.
Proof.
  induction 1 as [|i tr Hev _ IH]; [done|].
  unfold readings in *. simpl. unfold created at 1.
  destruct (i_ev i); try discriminate; simpl; f_equal; exact IH.
Qed.
End Message_traces.

(** ** Message ids *)

(** C1, as stated, fails: two messages appended within the same millisecond
    receive the same id.  Here [sockA] sends a room message and [sockB] a
    private message while [Date.now()] reads 5 for both; the ledger then
    holds two messages with id 5. *)
Lemma same_millisecond_ids_collide :
  ∃ st out,
    run (Sample.lobby ++
         [ Sample.input "sockA" 5 (Send_message Sample.hi);
           Sample.input "sockB" 5 (Private_message "sockA" "yo") ]) init
    = Ok (st, out)
    ∧ m_id <$> messages st = [5; 5]
    ∧ ¬ NoDup (m_id <$> messages st).
Proof.
  eexists _, _. split; [vm_compute; reflexivity|]. split; [reflexivity|].
  simpl. intros Hnd. apply NoDup_cons in Hnd as [Hnin _].
  apply Hnin. by left.
Qed.

(** C1, amended: the id of an appended message is the [Date.now()] reading
    of its event.  For every sequence of [send_message] and
    [private_message] events of connected sockets, the ids in the ledger are
    the last 100 of the ids already stored followed by the readings of the
    events, in order.  They are non-decreasing when those readings are, and
    strictly increasing, hence unique, when those readings are strictly
    increasing. *)
Theorem ledger_ids_are_clock_readings (st0 : State) (tr : list Input) :
  Forall (λ i, is_message_event (i_ev i) = true ∧ i_sid i ∈ connected st0) tr →
  (length (messages st0) ≤ 100)%nat →
  ∃ st out,
    run tr st0 = Ok (st, out) ∧
    let stamps := (m_id <$> messages st0) ++ readings tr in
    m_id <$> messages st = drop (length stamps - 100) stamps ∧
    (StronglySorted Z.le stamps → StronglySorted Z.le (m_id <$> messages st)) ∧
    (StronglySorted Z.lt stamps →
       StronglySorted Z.lt (m_id <$> messages st) ∧ NoDup (m_id <$> messages st)).
Proof.
  intros Htr Hlen.
  destruct (run_message_events tr st0 Htr) as [out Hrun].
  eexists _, out. split; [exact Hrun|].
  assert (m_id <$> foldl (λ acc m, ledger_push m acc) (messages st0)
                     (omap (created st0) tr)
          = drop (length ((m_id <$> messages st0) ++ readings tr) - 100)
                 ((m_id <$> messages st0) ++ readings tr)) as Hids.
  { assert (m_id <$> omap (created st0) tr = readings tr) as Hc.
    { apply created_ids. eapply Forall_impl; [exact Htr|]. by intros ? [? ?]. }
    rewrite ledger_fold_drop by done. rewrite fmap_drop, fmap_app, Hc.
    rewrite !length_app, <- Hc, !length_fmap. done. }
  simpl. rewrite Hids. split; [done|]. split.
  - apply StronglySorted_drop.
  - intros Hs. apply (StronglySorted_drop _ (length ((m_id <$> messages st0) ++ readings tr) - 100)) in Hs.
    split; [done | by apply StronglySorted_lt_NoDup].
Qed.

Lemma ledger_ids_are_clock_readings_witness :
  let st0 := Sample.state_after Sample.lobby in
  let tr := [ Sample.input "sockA" 5 (Send_message Sample.hi);
              Sample.input "sockB" 6 (Private_message "sockA" "yo") ] in
  ∃ st out,
    run tr st0 = Ok (st, out) ∧
    let stamps := (m_id <$> messages st0) ++ readings tr in
    m_id <$> messages st = drop (length stamps - 100) stamps ∧
    (StronglySorted Z.le stamps → StronglySorted Z.le (m_id <$> messages st)) ∧
    (StronglySorted Z.lt stamps →
       StronglySorted Z.lt (m_id <$> messages st) ∧ NoDup (m_id <$> messages st)).
Proof.
  intros st0 tr. apply (ledger_ids_are_clock_readings st0 tr).
  - repeat constructor; apply bool_decide_unpack; vm_compute; reflexivity.
  - vm_compute. lia.
Defined.

(** ** Capacity of the ledger *)

(** C3, as stated, fails in its last part: an id is a clock reading, so an
    evicted message can share its id with a retained one.  After 150 room
    messages of which the 50th and the 51st were sent in millisecond 149,
    the ledger holds the most recent 100, the 50th message is among the 50
    evicted ones, it is the first message with id 149, and looking up its id
    still returns a message. *)
Lemma evicted_id_still_found :
  let tr := Sample.lobby ++ Sample.burst Sample.straddle in
  let st := Sample.state_after tr in
  match run tr init with Ok r => r.1 = st | Throw _ => False end
  ∧ length (messages st) = 100%nat
  ∧ Sample.straddle !! 49%nat = Some 149
  ∧ (149 ∉ m_id <$> take 49 (omap (created (Sample.state_after Sample.lobby))
                               (Sample.burst Sample.straddle)))
  ∧ is_Some (find_by_id 149 (messages st)).
Proof.
  split; [vm_compute; reflexivity|].
  split; [vm_compute; reflexivity|]. split; [reflexivity|].
  split; [apply (bool_decide_unpack _); vm_compute; exact I|].
  eexists. vm_compute. reflexivity.
Qed.

(** C3, amended: the ledger is bounded at 100 with FIFO eviction.  For every
    sequence of [send_message] and [private_message] events of connected
    sockets, the ledger afterwards is the stored messages followed by the
    created ones, without the oldest ones beyond 100; an append to a full
    ledger removes exactly the oldest message.  After 150 appends to an empty
    ledger it holds exactly the most recent 100, and looking up the id of an
    evicted message returns nothing provided no retained message has that
    id. *)
Theorem ledger_capacity_fifo (st0 : State) (tr : list Input) :
  Forall (λ i, is_message_event (i_ev i) = true ∧ i_sid i ∈ connected st0) tr →
  (length (messages st0) ≤ 100)%nat →
  ∃ st out,
    run tr st0 = Ok (st, out) ∧
    let all := messages st0 ++ omap (created st0) tr in
    let evicted := (length all - 100)%nat in
    messages st = drop evicted all ∧
    (length (messages st) ≤ 100)%nat ∧
    (length (messages st0) = 100%nat → length tr = 1%nat →
       messages st = drop 1 all) ∧
    (∀ m, m ∈ take evicted all → m_id m ∉ (m_id <$> drop evicted all) →
       find_by_id (m_id m) (messages st) = None) ∧
    (messages st0 = [] → length tr = 150%nat →
       messages st = drop 50 (omap (created st0) tr) ∧
       length (messages st) = 100%nat).
Proof.
  intros Htr Hlen.
  destruct (run_message_events tr st0 Htr) as [out Hrun].
  eexists _, out. split; [exact Hrun|]. simpl.
  assert (length (omap (created st0) tr) = length tr) as Hn.
  { assert (m_id <$> omap (created st0) tr = readings tr) as Hc.
    { apply created_ids. eapply Forall_impl; [exact Htr|]. by intros ? [? ?]. }
    apply (f_equal length) in Hc. unfold readings in Hc.
    by rewrite !length_fmap in Hc. }
  rewrite ledger_fold_drop by done.
  split; [done|]. split; [rewrite length_drop; lia|]. split; [|split].
  - intros H100 H1. by rewrite length_app, Hn, H100, H1.
  - intros m _ Hid. by apply find_by_id_None.
  - intros Hnil H150. rewrite Hnil. simpl. rewrite Hn, H150. simpl.
    split; [done|]. rewrite length_drop, Hn. lia.
Qed.

Lemma ledger_capacity_fifo_witness :
  let st0 := Sample.state_after Sample.lobby in
  let tr := Sample.burst Sample.steady in
  ∃ st out,
    run tr st0 = Ok (st, out) ∧
    messages st = drop 50 (omap (created st0) tr) ∧
    length (messages st) = 100%nat ∧
    find_by_id 100 (messages st) = None.
Proof.
  intros st0 tr.
  assert (Forall (λ i, is_message_event (i_ev i) = true
                       ∧ i_sid i ∈ connected st0) tr) as Htr.
  { apply Forall_fmap, Forall_forall. intros t _. split; [reflexivity|].
    apply (bool_decide_unpack ("sockA" ∈ connected st0)). vm_compute. exact I. }
  assert (length (messages st0) ≤ 100)%nat as Hlen by (vm_compute; lia).
  destruct (ledger_capacity_fifo st0 tr Htr Hlen)
    as (st & out & Hrun & Hm & _ & _ & Hold & H150).
  exists st, out. split; [done|].
  destruct H150 as [Hd Hl]; [reflexivity | reflexivity |].
  split; [done|]. split; [done|].
  rewrite Hd. vm_compute. reflexivity.
Defined.

(** ** Routing of room messages *)

Section Routing_facts.
Implicit Types (st : State) (sid room : string).

Lemma truthy_true s : JS.truthy s = true ↔ s ≠ "".
Proof.
  unfold JS.truthy. destruct (String.eqb_spec s ""); simpl; split; congruence.
Qed.

Lemma elem_of_connected st c : c ∈ connected st ↔ is_Some (sids st !! c).
Proof. unfold connected. apply elem_of_dom. Qed.

Lemma elem_of_room_members st room c :
  c ∈ room_members st room ↔ ∃ rs, sids st !! c = Some rs ∧ room ∈ rs.
Proof.
  unfold room_members. rewrite elem_of_dom. split.
  - intros [rs [Hrs Hin]%map_lookup_filter_Some]. eauto.
  - intros (rs & Hrs & Hin). exists rs. by apply map_lookup_filter_Some.
Qed.

Lemma room_members_with_messages l st room :
  room_members (with_messages l st) room = room_members st room.
Proof. done. Qed.

(** When the table agrees with [userRooms], the sockets in a room that is
    not a socket id are those whose recorded room it is. *)
Lemma room_members_in_step st room c :
  subscriptions_in_step st → room ∉ connected st →
  c ∈ room_members st room ↔ userRooms st !! c = Some room.
Proof.
  intros [Hsub Hdom] Hroom. rewrite elem_of_room_members. split.
  - intros (rs & Hrs & Hin). apply (Hsub c rs Hrs) in Hin as [->|?]; [|done].
    exfalso. apply Hroom. apply elem_of_connected. eauto.
  - intros Hc. assert (c ∈ connected st) as [rs Hrs]%elem_of_connected
      by (apply Hdom; eauto).
    exists rs. split; [done|]. apply (Hsub c rs Hrs). by right.
Qed.

Lemma target_room_explicit sid md st r :
  md_room md = Some r → r ≠ "" → target_room sid md st = r.
Proof.
  intros Hr Hne%truthy_true. unfold target_room, JS.or_opt. rewrite Hr. simpl.
  by rewrite Hne; simpl; rewrite Hne.
Qed.

Lemma target_room_current sid md st r :
  md_room md = None ∨ md_room md = Some "" →
  userRooms st !! sid = Some r → r ≠ "" → target_room sid md st = r.
Proof.
  intros Hmd Hr Hne%truthy_true. unfold target_room, JS.or_opt.
  destruct Hmd as [-> | ->]; simpl; rewrite Hr; simpl; by rewrite Hne.
Qed.

Lemma target_room_default sid md st :
  md_room md = None ∨ md_room md = Some "" →
  userRooms st !! sid = None ∨ userRooms st !! sid = Some "" →
  target_room sid md st = "General".
Proof.
  intros Hmd Hr. unfold target_room, JS.or_opt.
  destruct Hmd as [-> | ->], Hr as [-> | ->]; done.
Qed.
End Routing_facts.

(** C2, as stated, fails in its delivery part: [io.to(room)] addresses the
    adapter's rooms, and every socket is in the room named by its own id.
    After alice and bob joined, alice's socket sends a message with the
    explicit room argument ["sockB"]; the message is scoped to that room and
    delivered to bob's socket, whose membership is ["General"]. *)
Lemma room_message_reaches_socket_of_other_room :
  ∃ st out e m,
    run (Sample.lobby ++
         [ Sample.input "sockA" 5 (Send_message (Sample.hi_to "sockB")) ]) init
    = Ok (st, out)
    ∧ last out = Some e
    ∧ e_data e = P_receive_message m
    ∧ m_room m = Some "sockB"
    ∧ "sockB" ∈ e_to e
    ∧ userRooms st !! "sockB" = Some "General".
Proof.
  eexists _, _, _, _. split; [vm_compute; reflexivity|].
  split; [reflexivity|]. split; [reflexivity|]. split; [reflexivity|].
  split; [|reflexivity].
  apply (bool_decide_unpack _). vm_compute. exact I.
Qed.

(** C2, amended: for every [send_message] event of a connected socket, the
    target room is the explicit room argument if it is a non-empty string,
    else the socket's recorded room if that is a non-empty string, else
    ["General"]; when the socket is registered, [readBy] is exactly its
    username; and the message is delivered to exactly the sockets that are in
    the adapter's room of that name when the event is processed.  When the
    adapter's table agrees with [userRooms] and the target room is not the id
    of a connected socket, these are exactly the connections whose recorded
    room is the target room. *)
Theorem send_message_routing (sid : string) (clk : Clock) (md : MessageData)
    (st : State) :
  sid ∈ connected st →
  ∃ st' e m,
    step sid clk (Send_message md) st = Ok (st', [e]) ∧
    e_data e = P_receive_message m ∧
    last (messages st') = Some m ∧
    let room := target_room sid md st in
    m_room m = Some room ∧
    (∀ r, md_room md = Some r → r ≠ "" → room = r) ∧
    (md_room md = None ∨ md_room md = Some "" →
       ∀ r, userRooms st !! sid = Some r → r ≠ "" → room = r) ∧
    (md_room md = None ∨ md_room md = Some "" →
       userRooms st !! sid = None ∨ userRooms st !! sid = Some "" →
       room = "General") ∧
    (∀ u, JS.get sid (users st) = Some u → m_readBy m = [Some (username u)]) ∧
    (∀ c, c ∈ e_to e ↔ ∃ rs, sids st !! c = Some rs ∧ room ∈ rs) ∧
    (subscriptions_in_step st → room ∉ connected st →
       ∀ c, c ∈ e_to e ↔ userRooms st !! c = Some room).
Proof.
  intros Hc. unfold step. rewrite bool_decide_eq_true_2 by done. simpl.
  eexists _, _, _. split; [reflexivity|]. simpl.
  split; [reflexivity|]. split; [apply ledger_push_last|].
  split; [reflexivity|].
  split; [intros r; apply target_room_explicit|].
  split; [intros Hmd r; by apply target_room_current|].
  split; [apply target_room_default|].
  split; [|split].
  - intros u Hu. simpl. unfold my_username. by rewrite Hu.
  - intros c. simpl. rewrite room_members_with_messages.
    apply elem_of_room_members.
  - intros Hsub Hroom c. simpl. rewrite room_members_with_messages.
    by apply room_members_in_step.
Qed.

Lemma send_message_routing_witness :
  let st := Sample.state_after Sample.lobby in
  "sockA" ∈ connected st ∧
  ∃ st' e m,
    step "sockA" (Sample.tick 5) (Send_message Sample.hi) st = Ok (st', [e]) ∧
    e_data e = P_receive_message m ∧
    m_room m = Some "General" ∧
    m_readBy m = [Some "alice"] ∧
    ∀ c, c ∈ e_to e ↔ userRooms st !! c = Some "General".
Proof.
  intros st.
  assert ("sockA" ∈ connected st) as Hc.
  { apply (bool_decide_unpack _). vm_compute. exact I. }
  split; [exact Hc|].
  destruct (send_message_routing "sockA" (Sample.tick 5) Sample.hi st Hc)
    as (st' & e & m & Hstep & He & _ & Hroom & _ & _ & Hdef & Hread & _ & Hto).
  exists st', e, m. split; [done|]. split; [done|].
  assert (target_room "sockA" Sample.hi st = "General") as Hr by reflexivity.
  rewrite Hr in *. split; [done|]. split.
  - apply (Hread {| username := "alice"; user_id := "sockA" |}). reflexivity.
  - apply Hto.
    + split.
      * intros c rs Hrs r.
        assert (c ∈ connected st) as Hin by (apply elem_of_connected; eauto).
        assert (connected st = {[ "sockA"; "sockB" ]}) as Heq
          by (vm_compute; reflexivity).
        rewrite Heq in Hin.
        assert (∀ k, sids st !! k = Some {[ k; "General" ]} →
                     userRooms st !! k = Some "General" → c = k →
                     r ∈ rs ↔ r = c ∨ userRooms st !! c = Some r) as Hk.
        { intros k Hs Hu ->. rewrite Hs in Hrs. injection Hrs as <-.
          rewrite Hu, elem_of_union, !elem_of_singleton.
          split; (intros [?|?]; [left | right]; congruence). }
        apply elem_of_union in Hin as [?%elem_of_singleton|?%elem_of_singleton].
        -- apply (Hk "sockA"); [vm_compute; reflexivity | reflexivity | done].
        -- apply (Hk "sockB"); [vm_compute; reflexivity | reflexivity | done].
      * intros c Hsome.
        assert (dom (userRooms st) = connected st) as Heq
          by (vm_compute; reflexivity).
        rewrite <- Heq. by apply elem_of_dom.
    + apply (bool_decide_unpack _). vm_compute. exact I.
Defined.

(** ** Routing of private messages *)




(** ** Disconnection *)

Section Presence_facts.
Implicit Types (st : State) (sid : string).

Lemma elem_of_get {V} k (v : V) (o : list (string * V)) :
  (k, v) ∈ o → is_Some (JS.get k o).
Proof.
  induction o as [|[k' v'] o IH]; [by intros ?%not_elem_of_nil|].
  rewrite elem_of_cons. simpl.
  destruct (String.eqb_spec k k'); [eauto|].
  intros [[= ? ?]|?]; [congruence | auto].
Qed.

(** A socket without registry entry is in no presence list. *)
Lemma absent_from_user_list st sid u :
  Invariant st → JS.get sid (users st) = None →
  u ∈ JS.values (users st) → user_id u ≠ sid.
Proof.
  intros Hinv Hget [[k u'] [-> Hin]]%list_elem_of_fmap Heq. simpl in Heq.
  rewrite (users_keyed st Hinv k u' Hin) in Heq. subst k.
  apply elem_of_get in Hin as [? ?]. congruence.
Qed.

(** Every presence list a listener emits is the registry it leaves. *)
Lemma handle_user_list sid clk ev st st' out e l :
  handle sid clk ev st = Ok (st', out) →
  e ∈ out → e_data e = P_user_list l → l = JS.values (users st').
Proof.
  destruct ev; simpl.
  - intros [-> ->]%Ok_inv. simpl. by intros ?%not_elem_of_nil.
  - intros [-> ->]%Ok_inv. simpl.
    rewrite !elem_of_cons, elem_of_nil. intros [->|[->|[]]]; simpl; congruence.
  - intros [-> ->]%Ok_inv. simpl. by intros ?%not_elem_of_nil.
  - intros [-> ->]%Ok_inv. simpl.
    rewrite list_elem_of_singleton. intros ->. discriminate.
  - intros [-> ->]%Ok_inv. unfold typing.
    destruct (JS.get sid (users st)); simpl.
    + rewrite list_elem_of_singleton. intros ->. discriminate.
    + by intros ?%not_elem_of_nil.
  - intros [-> ->]%Ok_inv. simpl.
    rewrite !elem_of_cons, elem_of_nil. intros [->|[->|[]]]; discriminate.
  - intros [-> ->]%Ok_inv. unfold read_message.
    destruct (find_by_id messageId (messages st)) as [msg|];
      [|by intros ?%not_elem_of_nil].
    destruct (my_username sid st) as [user|]; [|by intros ?%not_elem_of_nil].
    destruct (JS.truthy user && _); [|by intros ?%not_elem_of_nil]. simpl.
    destruct (scope_target msg); [|by intros ?%not_elem_of_nil].
    rewrite list_elem_of_singleton. intros ->. discriminate.
  - unfold react_message.
    destruct (find_by_id messageId (messages st)) as [msg|];
      [|intros [= <- <-]; by intros ?%not_elem_of_nil].
    destruct (JS.read_prop _ reaction); simpl; try discriminate;
      intros [= <- <-]; rewrite list_elem_of_singleton; intros ->;
      destruct (scope_target msg); discriminate.
  - intros [-> ->]%Ok_inv. unfold disconnect. simpl.
    rewrite elem_of_app, !elem_of_cons, elem_of_nil.
    intros [Hl|[->|[->|[]]]]; simpl; try congruence.
    destruct (JS.get sid (users st)); [|by apply not_elem_of_nil in Hl].
    apply list_elem_of_singleton in Hl as ->. discriminate.
Qed.

Lemma step_user_list sid clk ev st st' out e l :
  step sid clk ev st = Ok (st', out) →
  e ∈ out → e_data e = P_user_list l → l = JS.values (users st').
Proof.
  unfold step.
  destruct ev; case_bool_decide;
    try (intros [= <- <-]; by intros ?%not_elem_of_nil);
    apply handle_user_list.
Qed.

(** Only a socket's own events touch its registry entry. *)
Lemma step_other_registry sid sid' clk ev st st' out :
  sid' ≠ sid → step sid' clk ev st = Ok (st', out) →
  JS.get sid (users st') = JS.get sid (users st).
Proof.
  intros Hne. unfold step.
  destruct ev; case_bool_decide; simpl;
    [| | | | | | | | | | | | | |
     unfold react_message;
     destruct (find_by_id messageId (messages st)) as [msg|];
       [destruct (JS.read_prop _ reaction); simpl; try discriminate|]
     | | |];
    intros [-> _]%Ok_inv; simpl; try reflexivity.
  - by apply get_set_ne.
  - unfold join_room. simpl. destruct (userRooms st !! sid') as [p|];
      [destruct (JS.truthy p)|]; reflexivity.
  - unfold typing. by destruct (JS.get sid' (users st)).
  - unfold read_message.
    destruct (find_by_id messageId (messages st)); [|done].
    destruct (my_username sid' st) as [user|]; [|done].
    by destruct (JS.truthy user && _).
  - by apply get_delete_ne.
Qed.

Lemma run_excludes sid tr st st' out :
  Invariant st → JS.get sid (users st) = None →
  Forall (λ i, i_sid i ≠ sid) tr →
  run tr st = Ok (st', out) →
  ∀ e l u, e ∈ out → e_data e = P_user_list l → u ∈ l → user_id u ≠ sid.
Proof.
  revert st out. induction tr as [|i tr IH]; intros st out Hinv Hget Htr; simpl.
  - intros [= <- <-] e l u ?%not_elem_of_nil. done.
  - apply Forall_cons in Htr as [Hi Htr].
    destruct (step (i_sid i) (i_clk i) (i_ev i) st) as [[st1 out1]|] eqn:Hstep;
      simpl; [|discriminate].
    destruct (run tr st1) as [[st2 out2]|] eqn:Hrun; simpl; [|discriminate].
    intros [= <- <-] e l u [He|He]%elem_of_app Hl Hu.
    + rewrite (step_user_list _ _ _ _ _ _ _ _ Hstep He Hl) in Hu.
      eapply absent_from_user_list; [|
        erewrite step_other_registry by eassumption; exact Hget | exact Hu].
      by eapply step_Invariant.
    + eapply (IH st1 out2); try eassumption.
      * by eapply step_Invariant.
      * by erewrite step_other_registry by eassumption.
Qed.

Lemma run_reachable tr st st' out :
  reachable st → run tr st = Ok (st', out) → reachable st'.
Proof.
  revert st out. induction tr as [|i tr IH]; intros st out Hreach; simpl.
  - by intros [= <- <-].
  - destruct (step (i_sid i) (i_clk i) (i_ev i) st) as [[st1 out1]|] eqn:Hstep;
      simpl; [|discriminate].
    destruct (run tr st1) as [[st2 out2]|] eqn:Hrun; simpl; [|discriminate].
    intros [= <- <-]. eapply IH; [|exact Hrun].
    by eapply reach_step.
Qed.
End Presence_facts.

(** C5, as stated, fails for the fourth store: [disconnect] deletes the
    socket's entries in [users], [typingUsers] and [userRooms] and leaves
    [messages] alone.  After alice's socket sent a message and disconnected,
    its registry entry is gone and the ledger still holds its message. *)
Lemma ledger_keeps_messages_of_disconnected_socket :
  ∃ st out m,
    run (Sample.lobby ++
         [ Sample.input "sockA" 5 (Send_message Sample.hi);
           Sample.input "sockA" 6 Disconnect ]) init
    = Ok (st, out)
    ∧ JS.get "sockA" (users st) = None
    ∧ m ∈ messages st
    ∧ m_senderId m = "sockA".
Proof.
  eexists _, _, _. split; [vm_compute; reflexivity|].
  split; [reflexivity|]. split; [by left | reflexivity].
Qed.

(** C5, amended: after a [disconnect] event for a connected socket C, C is
    absent from the three stores keyed by connection (the user registry
    lookup, the room membership and the typing-tracker entry for C all
    return nothing) and from the transport; the ledger is left as it was.
    The disconnect ends by broadcasting the presence list and the typing
    list of the stores it leaves: no emission of the disconnect is addressed
    to C, no user in the presence list has C's id, and the typing list is the
    previous one without C's entry.  Every presence list broadcast
    afterwards, while no further event comes from C, has no user with C's
    id. *)
Theorem disconnect_cleanup (sid : string) (clk : Clock) (st : State) :
  reachable st → sid ∈ connected st →
  ∃ st' left,
    step sid clk Disconnect st
    = Ok (st', left ++ [ io_emit st' (P_user_list (JS.values (users st')));
                         io_emit st' (P_typing_users (JS.values (typingUsers st'))) ]) ∧
    JS.get sid (users st') = None ∧
    userRooms st' !! sid = None ∧
    JS.get sid (typingUsers st') = None ∧
    (sid ∉ connected st') ∧
    messages st' = messages st ∧
    Forall (λ e, (sid ∉ e_to e) ∧ ∃ u, e_data e = P_user_left u) left ∧
    (sid ∉ e_to (io_emit st' (P_user_list (JS.values (users st'))))) ∧
    (∀ u, u ∈ JS.values (users st') → user_id u ≠ sid) ∧
    JS.values (typingUsers st') = (filter (λ kv, kv.1 ≠ sid) (typingUsers st)).*2 ∧
    (∀ tr st'' out,
       Forall (λ i, i_sid i ≠ sid) tr → run tr st' = Ok (st'', out) →
       ∀ e l u, e ∈ out → e_data e = P_user_list l → u ∈ l → user_id u ≠ sid).
Proof.
  intros Hreach Hc. apply reachable_Invariant in Hreach as Hinv.
  unfold step. rewrite bool_decide_eq_true_2 by done. simpl. unfold disconnect.
  eexists _, _. split; [reflexivity|]. simpl.
  assert (sid ∉ dom (base.delete sid (sids st))) as Hgone.
  { rewrite dom_delete. apply not_elem_of_difference. right.
    by apply elem_of_singleton. }
  set (st' := {| users := JS.delete sid (users st); messages := messages st;
                 typingUsers := JS.delete sid (typingUsers st);
                 userRooms := base.delete sid (userRooms st);
                 sids := base.delete sid (sids st) |}).
  assert (Invariant st') as Hinv'.
  { destruct Hinv as [Hk ? ?]. split; simpl; try done.
    intros k u [_ ?]%elem_of_delete. auto. }
  split; [apply get_delete_eq|]. split; [apply lookup_delete_eq|].
  split; [apply get_delete_eq|]. split; [exact Hgone|]. split; [done|].
  split.
  { destruct (JS.get sid (users st)); repeat constructor; eauto. }
  split; [exact Hgone|]. split.
  { intros u. apply (absent_from_user_list st'); [done | apply get_delete_eq]. }
  split; [unfold JS.values; by rewrite delete_filter|].
  intros tr st'' out Htr Hrun.
  eapply (run_excludes sid tr st'); [done | apply get_delete_eq | done | done].
Qed.

Lemma disconnect_cleanup_witness :
  let st := Sample.state_after Sample.lobby in
  ∃ st' out,
    step "sockB" (Sample.tick 9) Disconnect st = Ok (st', out) ∧
    JS.get "sockB" (users st') = None ∧
    userRooms st' !! "sockB" = None ∧
    JS.get "sockB" (typingUsers st') = None ∧
    ∀ u, u ∈ JS.values (users st') → user_id u ≠ "sockB".
Proof.
  intros st.
  assert (reachable st) as Hreach.
  { eapply (run_reachable Sample.lobby init); [apply reach_init|].
    vm_compute. reflexivity. }
  assert ("sockB" ∈ connected st) as Hc.
  { apply (bool_decide_unpack _). vm_compute. exact I. }
  destruct (disconnect_cleanup "sockB" (Sample.tick 9) st Hreach Hc)
    as (st' & left & Hstep & Hu & Hr & Ht & _ & _ & _ & _ & Hlist & _).
  eexists st', _. split; [exact Hstep|]. done.
Defined.

(** ** Read receipts *)

Section Read_facts.
Implicit Types (st : State) (sid : string).

Lemma filter_eq_absent {A} `{EqDecision A} (x : A) (l : list A) :
  x ∉ l → filter (λ y, y = x) l = [].
Proof.
  induction l as [|y l IH]; [done|].
  rewrite not_elem_of_cons. intros [Hne Hnin].
  rewrite filter_cons_False by congruence. by apply IH.
Qed.

Lemma once_in_NoDup {A} `{EqDecision A} (x : A) (l : list A) :
  NoDup l → x ∈ l → length (filter (λ y, y = x) l) = 1%nat.
Proof.
  induction 1 as [|y l Hy Hl IH]; [by intros ?%not_elem_of_nil|].
  rewrite elem_of_cons. intros Hin.
  destruct (decide (y = x)) as [->|Hne].
  - rewrite filter_cons_True by done. simpl.
    by rewrite filter_eq_absent.
  - rewrite filter_cons_False by done. apply IH.
    destruct Hin as [->|]; done.
Qed.

Lemma includes_iff {A} `{EqDecision A} (x : A) (arr : list A) :
  JS.includes x arr = true ↔ x ∈ arr.
Proof. unfold JS.includes. apply bool_decide_eq_true. Qed.

(** What [read_message] does for a reader with a non-empty username. *)
Lemma read_message_found sid i st u msg :
  JS.get sid (users st) = Some u → username u ≠ "" →
  find_by_id i (messages st) = Some msg →
  read_message sid i st =
    if JS.includes (Some (username u)) (m_readBy msg) then (st, [])
    else
      let readBy := m_readBy msg ++ [Some (username u)] in
      let st1 := with_messages
                   (replace_found i (set_readBy readBy msg) (messages st)) st in
      (st1, match scope_target msg with
            | Some r => [ io_to st1 r (P_message_read i readBy) ]
            | None => []
            end).
Proof.
  intros Hu Hne%truthy_true Hf. unfold read_message, my_username.
  rewrite Hf, Hu. simpl. rewrite Hne. simpl.
  by destruct (JS.includes (Some (username u)) (m_readBy msg)).
Qed.

Lemma read_message_absent sid i st :
  find_by_id i (messages st) = None → read_message sid i st = (st, []).
Proof. intros Hf. unfold read_message. by rewrite Hf. Qed.
End Read_facts.

(** C6, as stated, fails for a reader registered under the empty username:
    [user_join] accepts it, and [read_message] skips a falsy username, so
    after two [read_message] events from that reader the message has no
    [readBy] entry for it at all. *)
Lemma empty_username_reader_is_never_recorded :
  ∃ st out m,
    run [ Sample.input "sockA" 1 Connection; Sample.input "sockZ" 2 Connection;
          Sample.input "sockA" 3 (User_join "alice");
          Sample.input "sockZ" 4 (User_join "");
          Sample.input "sockA" 5 (Send_message Sample.hi);
          Sample.input "sockZ" 6 (Read_message 5);
          Sample.input "sockZ" 7 (Read_message 5) ] init
    = Ok (st, out)
    ∧ JS.get "sockZ" (users st) = Some {| username := ""; user_id := "sockZ" |}
    ∧ find_by_id 5 (messages st) = Some m
    ∧ m_readBy m = [Some "alice"]
    ∧ length (filter (λ x, x = Some "") (m_readBy m)) = 0%nat.
Proof.
  eexists _, _, _. split; [vm_compute; reflexivity|].
  split; [reflexivity|]. split; [reflexivity|]. split; reflexivity.
Qed.

(** C6, amended: [read_message] is idempotent per username.  In every
    reachable state, for every message id and every registered reader with a
    non-empty username, processing [read_message] twice from the reader's
    socket leaves the found message with exactly one [readBy] entry for that
    username: the entry is added only if absent, and the second event
    changes nothing and emits nothing.  If no message has the id, the event
    changes nothing and emits nothing. *)
Theorem read_message_idempotent (sid : string) (clk clk' : Clock) (i : Z)
    (u : User) (st : State) :
  reachable st → sid ∈ connected st →
  JS.get sid (users st) = Some u → username u ≠ "" →
  ∃ st1 out1,
    step sid clk (Read_message i) st = Ok (st1, out1) ∧
    step sid clk' (Read_message i) st1 = Ok (st1, []) ∧
    match find_by_id i (messages st) with
    | None => st1 = st ∧ out1 = []
    | Some m =>
        ∃ m1, find_by_id i (messages st1) = Some m1 ∧
          length (filter (λ x, x = Some (username u)) (m_readBy m1)) = 1%nat ∧
          (Some (username u) ∈ m_readBy m → st1 = st ∧ out1 = []) ∧
          (Some (username u) ∉ m_readBy m →
             m_readBy m1 = m_readBy m ++ [Some (username u)])
    end.
Proof.
  intros Hreach Hc Hu Hne. apply reachable_Invariant in Hreach as Hinv.
  unfold step. rewrite bool_decide_eq_true_2 by done. simpl.
  destruct (find_by_id i (messages st)) as [m|] eqn:Hf.
  - rewrite (read_message_found sid i st u m Hu Hne Hf).
    pose proof (find_by_id_Some _ _ _ Hf) as [Hin Hid].
    pose proof (readBy_nodup st Hinv m Hin) as Hnd.
    destruct (JS.includes (Some (username u)) (m_readBy m)) eqn:Hinc.
    + exists st, []. split; [done|].
      rewrite bool_decide_eq_true_2 by done.
      rewrite (read_message_found sid i st u m Hu Hne Hf), Hinc.
      split; [done|]. exists m. apply includes_iff in Hinc.
      split; [done|]. split; [by apply once_in_NoDup|]. split; [done|].
      intros Hn. by destruct Hn.
    + apply includes_false in Hinc as Hnin.
      set (readBy := m_readBy m ++ [Some (username u)]).
      set (m1 := set_readBy readBy m).
      set (st1 := with_messages (replace_found i m1 (messages st)) st).
      assert (find_by_id i (messages st1) = Some m1) as Hf1.
      { simpl. apply find_replace_found; [by rewrite Hf | exact Hid]. }
      assert (Some (username u) ∈ m_readBy m1) as Hin1.
      { simpl. apply elem_of_app. right. by apply list_elem_of_singleton. }
      eexists st1, _. split; [reflexivity|].
      rewrite bool_decide_eq_true_2 by done.
      rewrite (read_message_found sid i st1 u m1 Hu Hne Hf1).
      apply includes_iff in Hin1 as Hinc1. rewrite Hinc1.
      split; [done|]. exists m1. split; [done|]. split.
      * apply once_in_NoDup; [|done]. simpl.
        pose proof (NoDup_push (Some (username u)) (m_readBy m) Hnd) as Hp.
        by rewrite Hinc in Hp.
      * split; [intros Hn; by destruct Hnin | done].
  - rewrite (read_message_absent sid i st Hf). exists st, [].
    split; [done|]. rewrite bool_decide_eq_true_2 by done.
    by rewrite (read_message_absent sid i st Hf).
Qed.

Lemma read_message_idempotent_witness :
  let st := Sample.state_after
              (Sample.lobby ++ [ Sample.input "sockA" 5 (Send_message Sample.hi) ]) in
  ∃ st1 out1 m1,
    step "sockB" (Sample.tick 6) (Read_message 5) st = Ok (st1, out1) ∧
    step "sockB" (Sample.tick 7) (Read_message 5) st1 = Ok (st1, []) ∧
    find_by_id 5 (messages st1) = Some m1 ∧
    m_readBy m1 = [Some "alice"; Some "bob"].
Proof.
  intros st.
  assert (reachable st) as Hreach.
  { eapply (run_reachable
              (Sample.lobby ++ [ Sample.input "sockA" 5 (Send_message Sample.hi) ])
              init); [apply reach_init|].
    vm_compute. reflexivity. }
  assert ("sockB" ∈ connected st) as Hc.
  { apply (bool_decide_unpack _). vm_compute. exact I. }
  assert (JS.get "sockB" (users st)
          = Some {| username := "bob"; user_id := "sockB" |}) as Hu
    by (vm_compute; reflexivity).
  assert ("bob" ≠ "") as Hne by discriminate.
  destruct (read_message_idempotent "sockB" (Sample.tick 6) (Sample.tick 7) 5
              _ st Hreach Hc Hu Hne) as (st1 & out1 & H1 & H2 & Hm).
  assert (∃ m, find_by_id 5 (messages st) = Some m ∧ m_readBy m = [Some "alice"])
    as (m & Hf & Hrb) by (eexists; split; vm_compute; reflexivity).
  rewrite Hf in Hm. destruct Hm as (m1 & Hf1 & _ & _ & Hadd).
  exists st1, out1, m1.
  split; [exact H1|]. split; [exact H2|]. split; [exact Hf1|].
  rewrite Hadd; rewrite Hrb; [reflexivity|].
  rewrite list_elem_of_singleton. discriminate.
Defined.

(** ** Reactions *)

Section Reaction_facts.
Implicit Types (st : State) (sid : string).

Lemma react_message_absent i r n st :
  find_by_id i (messages st) = None → react_message i r n st = Ok (st, []).
Proof. intros Hf. unfold react_message. by rewrite Hf. Qed.

(** The listener raises exactly when the message is found and the symbol
    names an inherited property that is not an own property yet. *)
Lemma react_message_Throw i r n st e :
  react_message i r n st = Throw e ↔
  e = TypeError "msg.reactions[reaction].includes is not a function" ∧
  ∃ msg, find_by_id i (messages st) = Some msg ∧
         default ∅ (m_reactions msg) !! r = None ∧ JS.inherited r = true.
Proof.
  unfold react_message, JS.read_prop.
  destruct (find_by_id i (messages st)) as [msg|].
  - destruct (default ∅ (m_reactions msg) !! r) as [arr|] eqn:Hr; simpl.
    + split; [discriminate|]. intros (_ & msg' & [= <-] & Hn & _). congruence.
    + destruct (JS.inherited r); simpl.
      * split; [intros [= <-]; eauto | by intros [-> _]].
      * split; [discriminate|]. intros (_ & msg' & _ & _ & [=]).
  - split; [discriminate|]. intros (_ & msg' & [=] & _).
Qed.

Lemma replace_found_twice i m' (l : list Message) :
  m_id m' = i → replace_found i m' (replace_found i m' l) = replace_found i m' l.
Proof.
  intros Hid. induction l as [|m0 l IH]; simpl; [done|].
  destruct (Z.eqb_spec (m_id m0) i) as [E|E]; simpl.
  - by rewrite Hid, Z.eqb_refl.
  - destruct (Z.eqb_spec (m_id m0) i); [done|]. by rewrite IH.
Qed.

(** A symbol that is an own property already, or is not inherited, is
    recorded once per username however often the event is repeated, when the
    array stored under the symbol has no duplicates (as every array has that
    [react_message] itself built). *)
Lemma react_message_records_once i r n st msg :
  find_by_id i (messages st) = Some msg →
  (∀ arr, default ∅ (m_reactions msg) !! r = Some arr → NoDup arr) →
  is_Some (default ∅ (m_reactions msg) !! r) ∨ JS.inherited r = false →
  ∃ st1 out1 out2 msg1 rs1 arr,
    react_message i r n st = Ok (st1, out1) ∧
    react_message i r n st1 = Ok (st1, out2) ∧
    find_by_id i (messages st1) = Some msg1 ∧
    m_reactions msg1 = Some rs1 ∧ rs1 !! r = Some arr ∧
    length (filter (λ x, x = n) arr) = 1%nat.
Proof.
  intros Hf Hclean Hsym.
  pose proof (find_by_id_Some _ _ _ Hf) as [Hin Hid].
  set (rs := default ∅ (m_reactions msg)) in *.
  assert (∃ arr, NoDup arr ∧
            (arr ← match JS.read_prop rs r with
                   | Own arr => Ok arr
                   | Undefined => Ok []
                   | Inherited => Throw (TypeError
                       "msg.reactions[reaction].includes is not a function")
                   end; Ok arr) = Ok arr) as (arr & Hnd & Hread).
  { unfold JS.read_prop. destruct (rs !! r) as [arr|] eqn:Hr.
    - exists arr. split; [by apply Hclean | done].
    - destruct Hsym as [[? Hown]|Hni]; [congruence|]. rewrite Hni.
      exists []. split; [apply NoDup_nil_2 | done]. }
  set (arr' := if JS.includes n arr then arr else arr ++ [n]).
  set (rs' := <[r := arr']> rs).
  set (msg1 := set_reactions rs' msg).
  set (st1 := with_messages (replace_found i msg1 (messages st)) st).
  assert (n ∈ arr') as Hn.
  { subst arr'. destruct (JS.includes n arr) eqn:E.
    - by apply includes_iff.
    - apply elem_of_app. right. by apply list_elem_of_singleton. }
  assert (find_by_id i (messages st1) = Some msg1) as Hf1.
  { simpl. apply find_replace_found; [by rewrite Hf | exact Hid]. }
  assert (∀ st0 m0 a0 (Hf0 : find_by_id i (messages st0) = Some m0),
            JS.read_prop (default ∅ (m_reactions m0)) r = Own a0 ∨
            (JS.read_prop (default ∅ (m_reactions m0)) r = Undefined ∧ a0 = []) →
            ∃ out,
              react_message i r n st0
              = Ok (with_messages
                      (replace_found i
                         (set_reactions
                            (<[r := if JS.includes n a0 then a0 else a0 ++ [n]]>
                               (default ∅ (m_reactions m0))) m0)
                         (messages st0)) st0, out)) as Hrun.
  { intros st0 m0 a0 Hf0 Hp. unfold react_message. rewrite Hf0.
    destruct Hp as [-> | [-> ->]]; simpl; eauto. }
  assert (JS.read_prop rs r = Own arr ∨ (JS.read_prop rs r = Undefined ∧ arr = []))
    as Hp.
  { destruct (JS.read_prop rs r); simpl in Hread;
      [left | discriminate | right]; by injection Hread as ->. }
  destruct (Hrun st msg arr Hf Hp) as [out1 H1].
  assert (JS.read_prop (default ∅ (m_reactions msg1)) r = Own arr') as Hp1.
  { simpl. unfold JS.read_prop. subst rs'. by rewrite lookup_insert_eq. }
  destruct (Hrun st1 msg1 arr' Hf1 (or_introl Hp1)) as [out2 H2].
  exists st1, out1, out2, msg1, rs', arr'.
  split; [exact H1|]. split.
  - rewrite H2. do 2 f_equal.
    assert (JS.includes n arr' = true) as -> by by apply includes_iff.
    simpl. subst rs'. rewrite insert_insert_eq.
    unfold st1, with_messages. simpl. f_equal.
    by apply replace_found_twice.
  - split; [exact Hf1|]. split; [done|].
    split; [subst rs'; apply lookup_insert_eq|].
    apply once_in_NoDup; [|done]. subst arr'. by apply NoDup_push.
Qed.

(** No listener other than [react_message] on an inherited symbol raises. *)
Lemma step_Throw sid clk ev st e :
  step sid clk ev st = Throw e →
  ∃ i r n msg,
    ev = React_message i r n ∧ find_by_id i (messages st) = Some msg ∧
    default ∅ (m_reactions msg) !! r = None ∧ JS.inherited r = true.
Proof.
  unfold step. destruct ev; case_bool_decide; simpl; try discriminate.
  intros (_ & msg & ? & ? & ?)%react_message_Throw. eauto 10.
Qed.
End Reaction_facts.

(** C7 fails for the names a plain object inherits, where the listener
    raises: with [reaction = "constructor"] on a message that is found and
    has no reactions yet, [msg.reactions[reaction]] reads the inherited
    [Object] function, which has no [includes], so the first event ends in a
    TypeError and no occurrence of the username is recorded under the
    symbol. *)
Theorem react_message_constructor_raises :
  let st := Sample.state_after
              (Sample.lobby ++ [ Sample.input "sockA" 5 (Send_message Sample.hi) ]) in
  is_Some (find_by_id 5 (messages st)) ∧
  step "sockB" (Sample.tick 6) (React_message 5 "constructor" "bob") st
  = Throw (TypeError "msg.reactions[reaction].includes is not a function").
Proof.
  split; [eexists; vm_compute; reflexivity | vm_compute; reflexivity].
Qed.

(** C9 fails on the same path: a socket that connected and never joined is
    absent from the user registry; its [react_message] event for a stored
    message with the symbol ["toString"] is neither a no-op nor defaulted,
    it raises a TypeError. *)
Theorem react_message_raises_for_unregistered_socket :
  let st := Sample.state_after
              (Sample.lobby ++ [ Sample.input "sockA" 5 (Send_message Sample.hi);
                                 Sample.input "sockC" 6 Connection ]) in
  JS.get "sockC" (users st) = None ∧
  userRooms st !! "sockC" = None ∧
  is_Some (find_by_id 5 (messages st)) ∧
  step "sockC" (Sample.tick 7) (React_message 5 "toString" "carol") st
  = Throw (TypeError "msg.reactions[reaction].includes is not a function").
Proof.
  split; [vm_compute; reflexivity|]. split; [vm_compute; reflexivity|].
  split; [eexists; vm_compute; reflexivity | vm_compute; reflexivity].
Qed.

(** ** Joining *)

(** C8, as stated, fails: [user_join] has no failure path.  For a socket
    that is already in the registry the event succeeds and overwrites the
    entry. *)
Lemma user_join_twice_does_not_fail :
  let st := Sample.state_after Sample.lobby in
  JS.get "sockA" (users st) = Some {| username := "alice"; user_id := "sockA" |} ∧
  ∃ st' out,
    step "sockA" (Sample.tick 9) (User_join "alicia") st = Ok (st', out) ∧
    JS.get "sockA" (users st')
    = Some {| username := "alicia"; user_id := "sockA" |}.
Proof.
  split; [vm_compute; reflexivity|].
  eexists _, _. split; vm_compute; reflexivity.
Qed.

(** C8, amended: [user_join] never fails.  For every connected socket it
    stores [{ username, id }] under the socket's id, overwriting in place an
    entry that is already there and appending a new one otherwise, records
    the room ["General"] for the socket, puts the socket in the adapter's
    room ["General"], and broadcasts the presence list and the join
    announcement to every connected socket. *)
Theorem user_join_registers (sid : string) (clk : Clock) (name : string)
    (st : State) :
  sid ∈ connected st →
  ∃ st' out,
    step sid clk (User_join name) st = Ok (st', out) ∧
    let u := {| username := name; user_id := sid |} in
    JS.get sid (users st') = Some u ∧
    userRooms st' !! sid = Some "General" ∧
    sid ∈ room_members st' "General" ∧
    (is_Some (JS.get sid (users st)) → JS.keys (users st') = JS.keys (users st)) ∧
    (JS.get sid (users st) = None → users st' = users st ++ [(sid, u)]) ∧
    out = [ io_emit st' (P_user_list (JS.values (users st')));
            io_emit st' (P_user_joined u) ] ∧
    connected st' = connected st.
Proof.
  intros Hc. unfold step. rewrite bool_decide_eq_true_2 by done. simpl.
  eexists _, _. split; [reflexivity|]. simpl.
  split; [apply get_set_eq|]. split; [apply lookup_insert_eq|].
  apply elem_of_connected in Hc as Hrs. destruct Hrs as [rs Hrs].
  split.
  { apply elem_of_room_members. simpl. exists ({[ "General" ]} ∪ rs).
    split; [|apply elem_of_union; left; by apply elem_of_singleton].
    by rewrite lookup_alter_eq, Hrs. }
  split; [apply keys_set_present|]. split; [apply set_absent|].
  split; [reflexivity|].
  unfold connected. simpl. apply set_eq. intros c.
  rewrite !elem_of_dom. destruct (decide (c = sid)) as [->|Hne].
  - rewrite lookup_alter_eq, Hrs. simpl. split; eauto.
  - by rewrite lookup_alter_ne.
Qed.

Lemma user_join_registers_witness :
  let st := Sample.state_after Sample.lobby in
  ∃ st' out,
    step "sockB" (Sample.tick 9) (User_join "robert") st = Ok (st', out) ∧
    JS.get "sockB" (users st')
    = Some {| username := "robert"; user_id := "sockB" |} ∧
    userRooms st' !! "sockB" = Some "General" ∧
    JS.keys (users st') = [ "sockA"; "sockB" ].
Proof.
  intros st.
  assert ("sockB" ∈ connected st) as Hc.
  { apply (bool_decide_unpack _). vm_compute. exact I. }
  destruct (user_join_registers "sockB" (Sample.tick 9) "robert" st Hc)
    as (st' & out & Hstep & Hu & Hr & _ & Hk & _).
  exists st', out. split; [exact Hstep|]. split; [exact Hu|].
  split; [exact Hr|]. rewrite Hk; [reflexivity|].
  eexists. vm_compute. reflexivity.
Defined.

(** ** Stale references *)

(** A message id that is not in the ledger makes [read_message] and
    [react_message] do nothing; no other listener looks messages up.  Every
    event other than [react_message] completes in every state. *)
Lemma stale_references_degrade (sid : string) (clk : Clock) (st : State) :
  (∀ i, find_by_id i (messages st) = None →
     step sid clk (Read_message i) st = Ok (st, []) ∧
     ∀ r n, step sid clk (React_message i r n) st = Ok (st, [])) ∧
  (∀ ev, (∀ i r n, ev ≠ React_message i r n) →
     ∃ res, step sid clk ev st = Ok res).
Proof.
  split.
  - intros i Hf. unfold step. case_bool_decide; simpl; [|done].
    rewrite (read_message_absent sid i st Hf). split; [done|].
    intros r n. by apply react_message_absent.
  - intros ev Hev. destruct (step sid clk ev st) as [res|e] eqn:Hstep; [eauto|].
    apply step_Throw in Hstep as (i & r & n & _ & -> & _). by destruct (Hev i r n).
Qed.

(** C10: a [send_message] or [private_message] event of a connected socket
    that is not in the user registry creates a message whose sender is
    ["Anonymous"] and whose [readBy] holds the single entry [undefined]: no
    username, and not ["Anonymous"], is recorded as having read it. *)
Theorem anonymous_sender_reads_nothing (sid : string) (clk : Clock) (st : State) :
  sid ∈ connected st → JS.get sid (users st) = None →
  (∀ md, ∃ st' out m,
     step sid clk (Send_message md) st = Ok (st', out) ∧
     last (messages st') = Some m ∧
     Forall (λ e, e_data e = P_receive_message m) out ∧
     m_sender m = "Anonymous" ∧ m_readBy m = [None] ∧
     ∀ name, Some name ∉ m_readBy m) ∧
  (∀ to body, ∃ st' out m,
     step sid clk (Private_message to body) st = Ok (st', out) ∧
     last (messages st') = Some m ∧
     Forall (λ e, e_data e = P_private_message m) out ∧
     m_sender m = "Anonymous" ∧ m_readBy m = [None] ∧
     ∀ name, Some name ∉ m_readBy m).
Proof.
  intros Hc Hu.
  assert (my_username sid st = None) as Hname by (unfold my_username; by rewrite Hu).
  split; [intros md | intros to body];
    unfold step; rewrite bool_decide_eq_true_2 by done; simpl;
    eexists _, _, _; (split; [reflexivity|]); simpl;
    (split; [apply ledger_push_last|]);
    (split; [by repeat constructor|]); simpl; rewrite Hname; simpl;
    (split; [reflexivity|]); (split; [reflexivity|]);
    intros name ?%list_elem_of_singleton; discriminate.
Qed.

Lemma anonymous_sender_reads_nothing_witness :
  let st := Sample.state_after [ Sample.input "sockC" 1 Connection ] in
  ∃ st' out m,
    step "sockC" (Sample.tick 2) (Send_message Sample.hi) st = Ok (st', out) ∧
    last (messages st') = Some m ∧
    m_sender m = "Anonymous" ∧ m_readBy m = [None].
Proof.
  intros st.
  assert ("sockC" ∈ connected st) as Hc.
  { apply (bool_decide_unpack _). vm_compute. exact I. }
  assert (JS.get "sockC" (users st) = None) as Hu by (vm_compute; reflexivity).
  destruct (anonymous_sender_reads_nothing "sockC" (Sample.tick 2) st Hc Hu)
    as [Hsend _].
  destruct (Hsend Sample.hi) as (st' & out & m & Hstep & Hl & _ & Hs & Hr & _).
  by exists st', out, m.
Defined.

(** ** Consistency of the stores *)

Section Store_facts.
Context {V : Type}.
Implicit Types (o : list (string * V)) (k : string) (v : V).

Lemma get_None_keys k o : JS.get k o = None ↔ k ∉ JS.keys o.
Proof.
  unfold JS.keys. induction o as [|[k' v'] o IH]; simpl.
  - split; [intros _; apply not_elem_of_nil | done].
  - rewrite not_elem_of_cons. destruct (String.eqb_spec k k') as [->|Hne].
    + split; [done | intros [? _]; done].
    + rewrite IH. tauto.
Qed.

Lemma get_Some_keys k o : is_Some (JS.get k o) ↔ k ∈ JS.keys o.
Proof.
  destruct (JS.get k o) eqn:E.
  - split; [intros _ | eauto]. destruct (decide (k ∈ JS.keys o)); [done|].
    apply get_None_keys in n. congruence.
  - split; [by intros [? ?] | intros Hin]. by apply get_None_keys in E.
Qed.

Lemma get_set_is_Some k k' v o :
  is_Some (JS.get k' (JS.set k v o)) ↔ k' = k ∨ is_Some (JS.get k' o).
Proof.
  destruct (decide (k' = k)) as [->|Hne].
  - rewrite get_set_eq. split; eauto.
  - rewrite get_set_ne by done. split; [by right | by intros [?|?]].
Qed.

Lemma get_delete_is_Some k k' o :
  is_Some (JS.get k' (JS.delete k o)) ↔ k' ≠ k ∧ is_Some (JS.get k' o).
Proof.
  destruct (decide (k' = k)) as [->|Hne].
  - rewrite get_delete_eq. split; [by intros [? ?] | by intros [? _]].
  - rewrite get_delete_ne by done. tauto.
Qed.

Lemma keys_set_NoDup k v o : NoDup (JS.keys o) → NoDup (JS.keys (JS.set k v o)).
Proof.
  intros Hnd. destruct (JS.get k o) eqn:E.
  - by rewrite keys_set_present by eauto.
  - rewrite set_absent by done. unfold JS.keys in *. rewrite fmap_app. simpl.
    apply NoDup_app. split; [done|]. split; [|apply NoDup_singleton].
    intros x Hx ->%list_elem_of_singleton. by apply get_None_keys in E.
Qed.

Lemma keys_delete_NoDup k o : NoDup (JS.keys o) → NoDup (JS.keys (JS.delete k o)).
Proof.
  unfold JS.keys. induction o as [|[k' v'] o IH]; simpl; [done|].
  rewrite NoDup_cons. intros [Hnin Hnd].
  destruct (String.eqb_spec k k'); [by apply IH|]. simpl.
  apply NoDup_cons. split; [|by apply IH].
  intros Hin. apply Hnin.
  apply list_elem_of_fmap in Hin as [[k0 v0] [-> Hin]].
  apply elem_of_delete in Hin as [_ Hin].
  apply list_elem_of_fmap. by exists (k0, v0).
Qed.

(** Assigning a fresh key and deleting it again gives the object back. *)
Lemma delete_set_absent k v o : JS.get k o = None → JS.delete k (JS.set k v o) = o.
Proof.
  induction o as [|[k' v'] o IH]; simpl.
  - by rewrite String.eqb_refl.
  - destruct (String.eqb_spec k k') as [->|Hne]; [done|]. simpl.
    intros H. destruct (String.eqb_spec k k'); [done|]. by rewrite IH.
Qed.

Lemma delete_absent k o : JS.get k o = None → JS.delete k o = o.
Proof.
  induction o as [|[k' v'] o IH]; simpl; [done|].
  destruct (String.eqb_spec k k'); [done|]. intros H. by rewrite IH.
Qed.
End Store_facts.

Section Wellformed_facts.
Implicit Types (st : State) (sid room : string).

Lemma connected_alter f sid st : connected (with_sids (alter f sid) st) = connected st.
Proof. unfold connected. simpl. apply dom_alter_L. Qed.

Lemma target_room_truthy sid md st : JS.truthy (target_room sid md st) = true.
Proof.
  unfold target_room, JS.or_opt, JS.or_else.
  destruct (md_room md) as [r|]; simpl.
  - destruct (JS.truthy r) eqn:E; [by rewrite E|].
    destruct (userRooms st !! sid) as [p|]; [|done].
    by destruct (JS.truthy p) eqn:E'.
  - destruct (userRooms st !! sid) as [p|]; [|done].
    by destruct (JS.truthy p) eqn:E'.
Qed.

Lemma Wellformed_init : Wellformed init.
Proof.
  split; simpl; try apply NoDup_nil_2; try (by intros k [? ?]).
  by intros m ?%not_elem_of_nil.
Qed.

Lemma Wellformed_push st m :
  is_Some (scope_target m) →
  Wellformed st → Wellformed (with_messages (ledger_push m (messages st)) st).
Proof.
  intros Hm [? ? ? ? ? Hs]. split; simpl; try done.
  intros m' [->|?]%elem_of_ledger_push; auto.
Qed.

Lemma Wellformed_replace st i m' :
  is_Some (scope_target m') →
  Wellformed st → Wellformed (with_messages (replace_found i m' (messages st)) st).
Proof.
  intros Hm [? ? ? ? ? Hs]. split; simpl; try done.
  intros m [->|?]%elem_of_replace_found; auto.
Qed.

Lemma Wellformed_sids f sid st :
  Wellformed st → Wellformed (with_sids (alter f sid) st).
Proof.
  intros [? ? ? ? Hc ?]. split; simpl; try done.
  intros k Hk. rewrite connected_alter. by apply Hc.
Qed.

Lemma handle_Wellformed sid clk ev st st' out :
  sid ∈ connected st → Wellformed st →
  handle sid clk ev st = Ok (st', out) → Wellformed st'.
Proof.
  intros Hc Hwf. destruct ev; simpl.
  - by intros [-> _]%Ok_inv.
  - intros [-> _]%Ok_inv. destruct Hwf as [Hu Ht Htr Hr Hrc Hs].
    split; simpl; try done.
    + by apply keys_set_NoDup.
    + intros k Hk. apply get_set_is_Some. right. by apply Htr.
    + intros k [->|Hk]%get_set_is_Some.
      * rewrite lookup_insert_eq. eauto.
      * rewrite lookup_insert. case_decide; eauto.
    + intros k Hk. unfold connected in *. simpl. rewrite dom_alter_L.
      rewrite lookup_insert in Hk. case_decide; [by subst | by apply Hrc].
  - intros [-> _]%Ok_inv. unfold join_room.
    assert (∀ st0, Wellformed st0 → sid ∈ connected st0 →
              Wellformed
                {| users := users (socket_join sid room st0);
                   messages := messages (socket_join sid room st0);
                   typingUsers := typingUsers (socket_join sid room st0);
                   userRooms := <[sid := room]> (userRooms (socket_join sid room st0));
                   sids := sids (socket_join sid room st0) |}) as Hjoin.
    { intros st0 [Hu Ht Htr Hr Hrc Hs] Hc0. split; simpl; try done.
      - intros k Hk. rewrite lookup_insert. case_decide; eauto.
      - intros k Hk. unfold connected. simpl. rewrite dom_alter_L.
        rewrite lookup_insert in Hk. case_decide; [by subst | by apply Hrc]. }
    cbv zeta. destruct (userRooms st !! sid) as [p|]; [destruct (JS.truthy p)|].
    + apply (Hjoin (socket_leave sid p st)).
      * by apply Wellformed_sids.
      * unfold socket_leave. by rewrite connected_alter.
    + by apply (Hjoin st).
    + by apply (Hjoin st).
  - intros [-> _]%Ok_inv. apply Wellformed_push; [|done].
    unfold scope_target. simpl. rewrite target_room_truthy.
    destruct (md_isPrivate md); eauto.
  - intros [-> _]%Ok_inv. unfold typing.
    destruct (JS.get sid (users st)) as [u|] eqn:Hu; simpl; [|done].
    destruct Hwf as [Hud Ht Htr Hr Hrc Hs].
    destruct isTyping; split; simpl; try done.
    + by apply keys_set_NoDup.
    + intros k [->|Hk]%get_set_is_Some; eauto.
    + by apply keys_delete_NoDup.
    + intros k [_ Hk]%get_delete_is_Some. eauto.
  - intros [-> _]%Ok_inv. apply Wellformed_push; [|done]. simpl. eauto.
  - intros [-> _]%Ok_inv. unfold read_message.
    destruct (find_by_id messageId (messages st)) as [msg|] eqn:Hf; [|done].
    destruct (my_username sid st) as [user|]; [|done].
    destruct (JS.truthy user && _); [|done]. simpl.
    apply Wellformed_replace; [|done].
    apply find_by_id_Some in Hf as [Hin _].
    change (is_Some (scope_target msg)). by apply (messages_scoped st Hwf).
  - unfold react_message.
    destruct (find_by_id messageId (messages st)) as [msg|] eqn:Hf;
      [|by intros [= <- <-]].
    apply find_by_id_Some in Hf as [Hin _].
    pose proof (messages_scoped st Hwf msg Hin) as Hsc.
    destruct (JS.read_prop _ reaction); simpl; try discriminate;
      intros [= <- <-]; (apply Wellformed_replace; [exact Hsc | done]).
  - intros [-> _]%Ok_inv. destruct Hwf as [Hu Ht Htr Hr Hrc Hs].
    split; simpl; try done.
    + by apply keys_delete_NoDup.
    + by apply keys_delete_NoDup.
    + intros k [Hne Hk]%get_delete_is_Some. apply get_delete_is_Some. eauto.
    + intros k [Hne Hk]%get_delete_is_Some. rewrite lookup_delete_ne by done. eauto.
    + intros k Hk. rewrite lookup_delete in Hk. case_decide; [by destruct Hk|].
      by apply Hrc.
Qed.

Lemma step_Wellformed sid clk ev st st' out :
  Wellformed st → step sid clk ev st = Ok (st', out) → Wellformed st'.
Proof.
  intros Hwf. unfold step.
  destruct ev; case_bool_decide; try (by intros [= <- <-]);
    try (by apply handle_Wellformed).
  - (* a new socket *)
    simpl. intros [= <- <-]. destruct Hwf as [? ? ? ? Hrc ?].
    split; simpl; try done.
    intros k Hk. unfold connected. simpl. rewrite dom_insert_L.
    apply elem_of_union. right. by apply Hrc.
  - (* a closing socket: the table loses it, then the listener its entries *)
    simpl. intros [-> _]%Ok_inv. destruct Hwf as [Hu Ht Htr Hr Hrc Hs].
    split; simpl; try done.
    + by apply keys_delete_NoDup.
    + by apply keys_delete_NoDup.
    + intros k [Hne Hk]%get_delete_is_Some. apply get_delete_is_Some. eauto.
    + intros k [Hne Hk]%get_delete_is_Some. rewrite lookup_delete_ne by done. eauto.
    + intros k Hk. rewrite lookup_delete in Hk. case_decide; [by destruct Hk|].
      unfold connected. simpl. rewrite dom_delete_L.
      apply elem_of_difference. split; [by apply Hrc|].
      by intros ?%elem_of_singleton.
Qed.

Lemma reachable_Wellformed st : reachable st → Wellformed st.
Proof.
  induction 1 as [|st sid clk ev st' out _ IH Hstep];
    [apply Wellformed_init | by eapply step_Wellformed].
Qed.
End Wellformed_facts.

Lemma lobby_reachable : reachable (Sample.state_after Sample.lobby).
Proof.
  eapply (run_reachable Sample.lobby init); [apply reach_init|].
  vm_compute. reflexivity.
Qed.

Lemma get_unique {V} k (v : V) (o : list (string * V)) :
  NoDup (JS.keys o) → (k, v) ∈ o → JS.get k o = Some v.
Proof.
  unfold JS.keys. induction o as [|[k' v'] o IH]; simpl;
    [by intros _ ?%not_elem_of_nil|].
  rewrite NoDup_cons, elem_of_cons. intros [Hnin Hnd] [[= -> ->]|Hin].
  - by rewrite String.eqb_refl.
  - destruct (String.eqb_spec k k') as [->|]; [|by apply IH].
    destruct Hnin. apply list_elem_of_fmap. by exists (k', v).
Qed.

(** X1: a presence list never names a socket twice.  In every reachable
    state the list served by [/api/users] (and broadcast as [user_list]) has
    pairwise distinct ids, each entry is the registry entry of its id, and
    each id belongs to a connected socket. *)
Theorem presence_list_ids_distinct (st : State) :
  reachable st →
  NoDup (user_id <$> api_users st) ∧
  ∀ u, u ∈ api_users st →
    JS.get (user_id u) (users st) = Some u ∧ user_id u ∈ connected st.
Proof.
  intros Hreach.
  pose proof (reachable_Invariant st Hreach) as Hinv.
  pose proof (reachable_Wellformed st Hreach) as Hwf.
  assert (user_id <$> api_users st = JS.keys (users st)) as Hids.
  { unfold api_users, JS.values, JS.keys. rewrite <- list_fmap_compose.
    apply list_fmap_ext. intros j [k u] Hj. simpl.
    apply (users_keyed st Hinv). by eapply list_elem_of_lookup_2. }
  split; [rewrite Hids; apply (users_distinct st Hwf)|].
  intros u [[k u'] [-> Hin]]%list_elem_of_fmap. simpl.
  rewrite (users_keyed st Hinv k u' Hin).
  assert (JS.get k (users st) = Some u') as Hget
    by (apply get_unique; [apply (users_distinct st Hwf) | done]).
  split; [done|].
  apply (room_connected st Hwf), (registered_has_room st Hwf). eauto.
Qed.

Lemma presence_list_ids_distinct_witness :
  let st := Sample.state_after Sample.lobby in
  NoDup (user_id <$> api_users st) ∧ length (api_users st) = 2%nat.
Proof.
  intros st. split; [|reflexivity].
  apply (presence_list_ids_distinct st lobby_reachable).
Defined.

(** X2: the stores are nested.  In every reachable state a socket with a
    typing entry is registered, a registered socket has a recorded room, and
    a socket with a recorded room is connected. *)
Theorem typing_registered_roomed_connected (st : State) (k : string) :
  reachable st →
  (is_Some (JS.get k (typingUsers st)) → is_Some (JS.get k (users st))) ∧
  (is_Some (JS.get k (users st)) → is_Some (userRooms st !! k)) ∧
  (is_Some (userRooms st !! k) → k ∈ connected st).
Proof.
  intros Hwf%reachable_Wellformed.
  split; [apply (typing_registered st Hwf)|].
  split; [apply (registered_has_room st Hwf) | apply (room_connected st Hwf)].
Qed.

Lemma typing_registered_roomed_connected_witness :
  "sockA" ∈ connected (Sample.state_after Sample.lobby).
Proof.
  apply (typing_registered_roomed_connected _ "sockA" lobby_reachable).
  apply (typing_registered_roomed_connected _ "sockA" lobby_reachable).
  eexists. vm_compute. reflexivity.
Defined.

(** X3: every stored message carries a scope, so a reaction update is never
    broadcast to all sockets.  In every reachable state each message is
    flagged private or has a non-empty room.  A [react_message] event of a
    connected socket that completes changes nothing and emits nothing when
    the message is not found; when it is found, the event emits exactly one
    [message_reacted], carrying the reactions the message has afterwards,
    addressed to the room named by the sender's id (message flagged private)
    or to the message's room. *)
Theorem reaction_update_is_scoped (sid : string) (clk : Clock) (i : Z)
    (r n : string) (st st' : State) (out : list Emission) :
  reachable st → sid ∈ connected st →
  step sid clk (React_message i r n) st = Ok (st', out) →
  (∀ m, m ∈ messages st →
     m_isPrivate m = true ∨ ∃ room, m_room m = Some room ∧ room ≠ "") ∧
  match find_by_id i (messages st) with
  | None => st' = st ∧ out = []
  | Some msg =>
      ∃ room msg' rs,
        (if m_isPrivate msg then room = m_senderId msg
         else m_room msg = Some room) ∧
        find_by_id i (messages st') = Some msg' ∧
        m_reactions msg' = Some rs ∧
        out = [ io_to st' room (P_message_reacted i rs) ]
  end.
Proof.
  intros Hwf%reachable_Wellformed Hc Hstep. split.
  - intros m Hin. destruct (messages_scoped st Hwf m Hin) as [room Hroom].
    unfold scope_target in Hroom. destruct (m_isPrivate m); [by left|]. right.
    destruct (m_room m) as [room'|]; simpl in Hroom; [|done].
    destruct (JS.truthy room') eqn:E; [|done].
    exists room'. split; [done | by apply truthy_true].
  - revert Hstep. unfold step. rewrite bool_decide_eq_true_2 by done.
    simpl. unfold react_message.
    destruct (find_by_id i (messages st)) as [msg|] eqn:Hf;
      [|by intros [= <- <-]].
    pose proof (find_by_id_Some _ _ _ Hf) as [Hin Hid].
    destruct (messages_scoped st Hwf msg Hin) as [room Hroom].
    assert (if m_isPrivate msg then room = m_senderId msg
            else m_room msg = Some room) as Hscope.
    { unfold scope_target in Hroom. destruct (m_isPrivate msg); [congruence|].
      by destruct (JS.truthy_opt (m_room msg)). }
    destruct (JS.read_prop _ r); simpl; try discriminate;
      intros [= <- <-]; rewrite Hroom;
      (eexists room, _, _; split; [exact Hscope|]; split;
       [simpl; apply find_replace_found; [by rewrite Hf | exact Hid]
       | split; reflexivity]).
Qed.

Lemma reaction_update_is_scoped_witness :
  let st := Sample.state_after
              (Sample.lobby ++ [ Sample.input "sockA" 5 (Send_message Sample.hi) ]) in
  ∃ st' rs,
    step "sockB" (Sample.tick 6) (React_message 5 "thumbsup" "bob") st
    = Ok (st', [ io_to st' "General" (P_message_reacted 5 rs) ]) ∧
    rs !! "thumbsup" = Some [ "bob" ].
Proof.
  intros st.
  assert (reachable st) as Hreach.
  { eapply (run_reachable
              (Sample.lobby ++ [ Sample.input "sockA" 5 (Send_message Sample.hi) ])
              init); [apply reach_init|].
    vm_compute. reflexivity. }
  assert ("sockB" ∈ connected st) as Hc.
  { apply (bool_decide_unpack _). vm_compute. exact I. }
  assert (∃ st' out m rs0,
            step "sockB" (Sample.tick 6) (React_message 5 "thumbsup" "bob") st
            = Ok (st', out)
            ∧ find_by_id 5 (messages st') = Some m
            ∧ m_reactions m = Some rs0
            ∧ rs0 !! "thumbsup" = Some [ "bob" ])
    as (st' & out & m & rs0 & Hstep & Hm & Hrs0 & Hlook).
  { eexists _, _, _, _. split; [vm_compute; reflexivity|].
    split; [vm_compute; reflexivity|]. split; vm_compute; reflexivity. }
  destruct (reaction_update_is_scoped _ _ _ _ _ _ _ _ Hreach Hc Hstep)
    as [_ Hfound].
  assert (find_by_id 5 (messages st)
          = Some (room_message "sockA" (Sample.tick 5) Sample.hi
                    (Sample.state_after Sample.lobby))) as Hf
    by (vm_compute; reflexivity).
  rewrite Hf in Hfound.
  destruct Hfound as (room & msg' & rs & Hroom & Hf' & Hrs & Hout).
  simpl in Hroom. injection Hroom as <-.
  exists st', rs. split; [by rewrite Hstep, Hout | congruence].
Defined.

(** X4: in every reachable state the history served by [/api/messages]
    holds at most 100 messages, and no entry occurs twice in the [readBy]
    array of any of them. *)
Theorem history_bounded_and_duplicate_free (st : State) :
  reachable st →
  (length (api_messages st) ≤ 100)%nat ∧
  ∀ m, m ∈ api_messages st → NoDup (m_readBy m).
Proof.
  intros Hinv%reachable_Invariant. split; [apply (ledger_bounded st Hinv)|].
  intros m Hin. by apply (readBy_nodup st Hinv).
Qed.

Lemma history_bounded_and_duplicate_free_witness :
  let st := Sample.state_after
              (Sample.lobby ++ [ Sample.input "sockA" 5 (Send_message Sample.hi);
                                 Sample.input "sockB" 6 (Read_message 5) ]) in
  ∃ m,
    api_messages st = [m] ∧
    m_readBy m = [Some "alice"; Some "bob"] ∧
    NoDup (m_readBy m).
Proof.
  intros st.
  assert (reachable st) as Hreach.
  { eapply (run_reachable
              (Sample.lobby ++ [ Sample.input "sockA" 5 (Send_message Sample.hi);
                                 Sample.input "sockB" 6 (Read_message 5) ])
              init); [apply reach_init|].
    vm_compute. reflexivity. }
  assert (∃ m, api_messages st = [m] ∧ m_readBy m = [Some "alice"; Some "bob"])
    as (m & Hm & Hr) by (eexists; split; vm_compute; reflexivity).
  exists m. split; [exact Hm|]. split; [exact Hr|].
  apply (history_bounded_and_duplicate_free st Hreach).
  rewrite Hm. by left.
Defined.

(** ** Rooms *)

Section Room_facts.
Implicit Types (st : State) (sid room : string).

Lemma room_members_sids st st' :
  sids st' = sids st → ∀ r, room_members st' r = room_members st r.
Proof. intros H r. unfold room_members. by rewrite H. Qed.

(** The adapter's table after [join_room]. *)
Lemma join_room_sids sid room st :
  sids (join_room sid room st).1
  = alter (λ rs, {[room]} ∪ rs) sid
      (match userRooms st !! sid with
       | Some p => if JS.truthy p then alter (λ rs, rs ∖ {[p]}) sid (sids st)
                   else sids st
       | None => sids st
       end).
Proof.
  unfold join_room. cbv zeta.
  destruct (userRooms st !! sid) as [p|]; [destruct (JS.truthy p)|]; reflexivity.
Qed.

Lemma join_room_userRooms sid room st :
  userRooms (join_room sid room st).1 = <[sid := room]> (userRooms st).
Proof.
  unfold join_room. cbv zeta.
  destruct (userRooms st !! sid) as [p|]; [destruct (JS.truthy p)|]; reflexivity.
Qed.

Lemma join_room_own sid room st :
  sids (join_room sid room st).1 !! sid
  = (λ rs, {[room]} ∪
       match userRooms st !! sid with
       | Some p => if JS.truthy p then rs ∖ {[p]} else rs
       | None => rs
       end) <$> sids st !! sid.
Proof.
  rewrite join_room_sids, lookup_alter_eq.
  destruct (userRooms st !! sid) as [p|]; [destruct (JS.truthy p)|];
    rewrite ?lookup_alter_eq; by destruct (sids st !! sid).
Qed.

Lemma join_room_other sid room st c :
  c ≠ sid → sids (join_room sid room st).1 !! c = sids st !! c.
Proof.
  intros Hne. rewrite join_room_sids, lookup_alter_ne by done.
  destruct (userRooms st !! sid) as [p|]; [destruct (JS.truthy p)|];
    by rewrite ?lookup_alter_ne by done.
Qed.

(** The listeners that touch neither the adapter's table nor [userRooms]. *)
Lemma step_tables_unchanged sid clk ev st st' out :
  match ev with
  | Send_message _ | Typing _ | Private_message _ _
  | Read_message _ | React_message _ _ _ => True
  | _ => False
  end →
  step sid clk ev st = Ok (st', out) →
  sids st' = sids st ∧ userRooms st' = userRooms st.
Proof.
  intros Hev. unfold step.
  destruct ev; try done; case_bool_decide; simpl;
    [| | | | | | | |
     unfold react_message;
     destruct (find_by_id messageId (messages st)) as [msg|];
       [destruct (JS.read_prop _ reaction); simpl; try discriminate|]
     |];
    intros [-> _]%Ok_inv; simpl; try done.
  - unfold typing. by destruct (JS.get sid (users st)).
  - unfold read_message.
    destruct (find_by_id messageId (messages st)); [|done].
    destruct (my_username sid st) as [user|]; [|done].
    by destruct (JS.truthy user && _).
Qed.
End Room_facts.

(** X5: [join_room] moves the socket and tells nobody.  For a connected
    socket the event emits nothing, records the new room, puts the socket in
    the adapter's room of that name and takes it out of the previously
    recorded room when that is a non-empty name other than the new one; its
    other subscriptions, the subscriptions of every other socket, and the
    registry, the ledger and the typing store stay as they were. *)
Theorem join_room_moves_subscription (sid : string) (clk : Clock) (room : string)
    (st : State) :
  sid ∈ connected st →
  ∃ st',
    step sid clk (Join_room room) st = Ok (st', []) ∧
    userRooms st' = <[sid := room]> (userRooms st) ∧
    sid ∈ room_members st' room ∧
    (∀ p, userRooms st !! sid = Some p → p ≠ "" → p ≠ room →
       sid ∉ room_members st' p) ∧
    (∀ r, r ≠ room → ¬ (userRooms st !! sid = Some r ∧ r ≠ "") →
       sid ∈ room_members st' r ↔ sid ∈ room_members st r) ∧
    (∀ c r, c ≠ sid → c ∈ room_members st' r ↔ c ∈ room_members st r) ∧
    users st' = users st ∧ messages st' = messages st ∧
    typingUsers st' = typingUsers st.
Proof.
  intros Hc. unfold step. rewrite bool_decide_eq_true_2 by done. unfold handle.
  exists (join_room sid room st).1.
  apply elem_of_connected in Hc as [rs Hrs].
  set (st' := (join_room sid room st).1).
  assert (sids st' !! sid
          = Some ({[room]} ∪
                    match userRooms st !! sid with
                    | Some p => if JS.truthy p then rs ∖ {[p]} else rs
                    | None => rs
                    end)) as Hown.
  { unfold st'. by rewrite join_room_own, Hrs. }
  assert (∀ c, c ≠ sid → sids st' !! c = sids st !! c) as Hother.
  { intros c Hne. unfold st'. by apply join_room_other. }
  split; [by unfold st', join_room|]. split; [apply join_room_userRooms|].
  split; [|split; [|split; [|split]]].
  - apply elem_of_room_members. eexists. split; [exact Hown|].
    apply elem_of_union. left. by apply elem_of_singleton.
  - intros p Hp Hne%truthy_true Hpr [rs' [Hrs' Hin]]%elem_of_room_members.
    rewrite Hown in Hrs'. injection Hrs' as <-. rewrite Hp, Hne in Hin.
    apply elem_of_union in Hin as [?%elem_of_singleton|Hin]; [done|].
    apply elem_of_difference in Hin as [_ Hin]. apply Hin.
    by apply elem_of_singleton.
  - intros r Hr Hprev. rewrite !elem_of_room_members, Hown, Hrs.
    assert (∀ X : gset string,
              r ∈ ({[room]} ∪
                     match userRooms st !! sid with
                     | Some p => if JS.truthy p then X ∖ {[p]} else X
                     | None => X
                     end) ↔ r ∈ X) as Hiff.
    { intros X. rewrite elem_of_union, elem_of_singleton.
      destruct (userRooms st !! sid) as [p|] eqn:Hp;
        [destruct (JS.truthy p) eqn:Ht|]; try tauto.
      rewrite elem_of_difference, elem_of_singleton.
      apply truthy_true in Ht.
      assert (r ≠ p) by (intros ->; apply Hprev; eauto). tauto. }
    split; intros (X & [= <-] & Hin); eexists; (split; [done|]); by apply Hiff.
  - intros c r Hne. by rewrite !elem_of_room_members, Hother.
  - unfold st', join_room. cbv zeta.
    destruct (userRooms st !! sid) as [p|]; [destruct (JS.truthy p)|]; done.
Qed.

Lemma join_room_moves_subscription_witness :
  let st := Sample.state_after Sample.lobby in
  ∃ st',
    step "sockA" (Sample.tick 5) (Join_room "Tech") st = Ok (st', []) ∧
    "sockA" ∈ room_members st' "Tech" ∧
    "sockA" ∉ room_members st' "General".
Proof.
  intros st.
  assert ("sockA" ∈ connected st) as Hc.
  { apply (bool_decide_unpack _). vm_compute. exact I. }
  destruct (join_room_moves_subscription "sockA" (Sample.tick 5) "Tech" st Hc)
    as (st' & Hstep & _ & Hin & Hout & _).
  exists st'. split; [exact Hstep|]. split; [exact Hin|].
  apply Hout; [vm_compute; reflexivity | discriminate | discriminate].
Defined.

(** X6: [user_join] leaves no room.  For a connected socket the event
    resets the recorded room to ["General"] and puts the socket in the
    adapter's room ["General"], while every socket, the joining one included,
    stays in every adapter room it was in: a socket that had moved to
    another room still receives that room's messages.  No other membership
    is added. *)
Theorem user_join_keeps_subscriptions (sid : string) (clk : Clock)
    (name : string) (st : State) :
  sid ∈ connected st →
  ∃ st' out,
    step sid clk (User_join name) st = Ok (st', out) ∧
    userRooms st' !! sid = Some "General" ∧
    sid ∈ room_members st' "General" ∧
    (∀ c r, c ∈ room_members st r → c ∈ room_members st' r) ∧
    (∀ c r, c ∈ room_members st' r →
       c ∈ room_members st r ∨ (c = sid ∧ r = "General")).
Proof.
  intros Hc. unfold step. rewrite bool_decide_eq_true_2 by done. simpl.
  eexists _, _. split; [reflexivity|]. simpl.
  split; [apply lookup_insert_eq|].
  split.
  { apply elem_of_connected in Hc as [rs Hrs].
    apply elem_of_room_members. simpl. exists ({[ "General" ]} ∪ rs).
    rewrite lookup_alter_eq, Hrs. split; [done|].
    apply elem_of_union. left. by apply elem_of_singleton. }
  split; intros c r; rewrite !elem_of_room_members; simpl.
  - intros (rs & Hrs & Hin). destruct (decide (c = sid)) as [->|Hne].
    + exists ({[ "General" ]} ∪ rs). rewrite lookup_alter_eq, Hrs.
      split; [done|]. apply elem_of_union. by right.
    + exists rs. by rewrite lookup_alter_ne.
  - intros (rs & Hrs & Hin). destruct (decide (c = sid)) as [->|Hne].
    + rewrite lookup_alter_eq in Hrs.
      destruct (sids st !! sid) as [rs0|] eqn:E; [|done].
      injection Hrs as <-.
      apply elem_of_union in Hin as [->%elem_of_singleton|Hin]; [by right|].
      left. eauto.
    + rewrite lookup_alter_ne in Hrs by done. left. eauto.
Qed.

Lemma user_join_keeps_subscriptions_witness :
  let st := Sample.state_after
              (Sample.lobby ++ [ Sample.input "sockA" 5 (Join_room "Tech") ]) in
  ∃ st' out,
    step "sockA" (Sample.tick 6) (User_join "alice") st = Ok (st', out) ∧
    userRooms st' !! "sockA" = Some "General" ∧
    "sockA" ∈ room_members st' "General" ∧
    "sockA" ∈ room_members st' "Tech".
Proof.
  intros st.
  assert ("sockA" ∈ connected st) as Hc.
  { apply (bool_decide_unpack _). vm_compute. exact I. }
  destruct (user_join_keeps_subscriptions "sockA" (Sample.tick 6) "alice" st Hc)
    as (st' & out & Hstep & Hroom & Hgen & Hkeep & _).
  exists st', out. split; [exact Hstep|]. split; [exact Hroom|].
  split; [exact Hgen|].
  apply Hkeep. apply (bool_decide_unpack _). vm_compute. exact I.
Defined.

(** X7: a socket's entries change only through its own events.  Whatever
    event another socket sends, the registry entry, the typing entry, the
    recorded room and the adapter rooms of this socket stay as they were. *)
Theorem other_sockets_untouched (sid sid' : string) (clk : Clock) (ev : Event)
    (st st' : State) (out : list Emission) :
  sid' ≠ sid → step sid' clk ev st = Ok (st', out) →
  JS.get sid (users st') = JS.get sid (users st) ∧
  JS.get sid (typingUsers st') = JS.get sid (typingUsers st) ∧
  userRooms st' !! sid = userRooms st !! sid ∧
  sids st' !! sid = sids st !! sid.
Proof.
  intros Hne Hstep.
  split; [by eapply step_other_registry|].
  revert Hstep. unfold step.
  destruct ev; case_bool_decide; unfold handle;
    [| | | | | | | | | | | | | |
     unfold react_message;
     destruct (find_by_id messageId (messages st)) as [msg|];
       [destruct (JS.read_prop _ reaction); simpl; try discriminate|]
     | | |];
    intros [-> _]%Ok_inv; try (simpl; done).
  - simpl. by rewrite lookup_insert_ne.
  - simpl. by rewrite lookup_insert_ne, lookup_alter_ne.
  - rewrite join_room_userRooms, join_room_other by done.
    rewrite lookup_insert_ne by done. split; [|done].
    unfold join_room. cbv zeta.
    destruct (userRooms st !! sid') as [p|]; [destruct (JS.truthy p)|]; done.
  - unfold typing. destruct (JS.get sid' (users st)); [|done].
    destruct isTyping; simpl; by rewrite ?get_set_ne, ?get_delete_ne.
  - unfold read_message.
    destruct (find_by_id messageId (messages st)); [|done].
    destruct (my_username sid' st) as [user|]; [|done].
    by destruct (JS.truthy user && _).
  - simpl. by rewrite get_delete_ne, !lookup_delete_ne.
Qed.

Lemma other_sockets_untouched_witness :
  let st := Sample.state_after Sample.lobby in
  ∃ st' out,
    step "sockB" (Sample.tick 5) Disconnect st = Ok (st', out) ∧
    JS.get "sockA" (users st') = JS.get "sockA" (users st) ∧
    sids st' !! "sockA" = sids st !! "sockA".
Proof.
  intros st.
  destruct (step "sockB" (Sample.tick 5) Disconnect st) as [[st' out]|e] eqn:Hstep;
    [|by vm_compute in Hstep].
  assert ("sockB" ≠ "sockA") as Hne by discriminate.
  destruct (other_sockets_untouched "sockA" "sockB" _ _ st st' out Hne Hstep)
    as (Hu & _ & _ & Hs).
  by exists st', out.
Defined.

(** X8: what keeps the adapter's table in agreement with [userRooms].  The
    agreement (every connected socket is in the room of its own id and in its
    recorded room and in no other) survives every event, provided a
    [user_join] comes from a socket whose recorded room is absent or
    ["General"], and a [join_room] from a socket whose recorded room is
    absent or a non-empty name other than its own id. *)
Theorem orderly_events_keep_agreement (sid : string) (clk : Clock) (ev : Event)
    (st st' : State) (out : list Emission) :
  subscriptions_in_step st → orderly sid ev st →
  step sid clk ev st = Ok (st', out) →
  subscriptions_in_step st'.
Proof.
  intros [Hsub Hdom] Hord Hstep.
  assert (match ev with
          | Send_message _ | Typing _ | Private_message _ _
          | Read_message _ | React_message _ _ _ => True
          | _ => False
          end ∨ ev = Connection ∨ (∃ n, ev = User_join n) ∨
          (∃ r, ev = Join_room r) ∨ ev = Disconnect) as Hcases
    by (destruct ev; eauto 10).
  destruct Hcases as [Hev | [-> | [[name ->] | [[room ->] | ->]]]].
  - destruct (step_tables_unchanged _ _ _ _ _ _ Hev Hstep) as [Hs Hu].
    unfold subscriptions_in_step, connected. rewrite Hs, Hu. by split.
  - revert Hstep. unfold step. case_bool_decide as Hc; simpl;
      intros [= <- <-]; [by split|].
    split; simpl.
    + intros c rs Hrs r. rewrite lookup_insert in Hrs. case_decide as Hcs.
      * subst c. injection Hrs as <-. rewrite elem_of_singleton.
        assert (userRooms st !! sid = None) as ->.
        { destruct (userRooms st !! sid) eqn:E; [|done].
          destruct Hc. apply Hdom. eauto. }
        split; [by left | by intros [?|?]].
      * by apply Hsub.
    + intros c Hsome. unfold connected. simpl. rewrite dom_insert_L.
      apply elem_of_union. right. by apply Hdom.
  - revert Hstep. unfold step. case_bool_decide as Hc; simpl;
      intros [-> _]%Ok_inv; [|by split].
    split; simpl.
    + intros c rs Hrs r. rewrite lookup_alter in Hrs. case_decide as Hcs.
      * subst c. destruct (sids st !! sid) as [rs0|] eqn:E; [|done].
        injection Hrs as <-. rewrite lookup_insert_eq.
        rewrite elem_of_union, elem_of_singleton, (Hsub sid rs0 E).
        simpl in Hord.
        split; [intros [->|[?|Hr]]; auto | intros [?|[= <-]]; auto].
        destruct Hord as [Hn|Hg]; rewrite Hr in *; [done|]. right. congruence.
      * rewrite lookup_insert_ne by done. by apply Hsub.
    + intros c Hsome. unfold connected. simpl. rewrite dom_alter_L.
      rewrite lookup_insert in Hsome. case_decide; [by subst | by apply Hdom].
  - revert Hstep. unfold step. case_bool_decide as Hc; unfold handle;
      intros [-> _]%Ok_inv; [|by split].
    apply elem_of_connected in Hc as Hrs. destruct Hrs as [rs0 Hrs0].
    split.
    + intros c rs Hrs r. rewrite join_room_userRooms.
      destruct (decide (c = sid)) as [->|Hne].
      * rewrite join_room_own, Hrs0 in Hrs. injection Hrs as <-.
        rewrite lookup_insert_eq, elem_of_union, elem_of_singleton.
        pose proof (Hsub sid rs0 Hrs0) as Hrs0'. simpl in Hord.
        destruct (userRooms st !! sid) as [p|] eqn:Hp.
        -- destruct Hord as [Hp1 Hp2]. apply truthy_true in Hp1 as Ht.
           rewrite Ht, elem_of_difference, elem_of_singleton, Hrs0'.
           split.
           ++ intros [->|[[->|[= <-]] Hnp]]; auto. done.
           ++ intros [->|[= <-]]; [|by left].
              destruct (decide (sid = room)); [by left|]. right.
              split; [by left | done].
        -- rewrite Hrs0'. split; [intros [->|[?|?]]; auto; done|].
           intros [->|[= <-]]; auto.
      * rewrite join_room_other in Hrs by done.
        rewrite lookup_insert_ne by done. by apply Hsub.
    + intros c Hsome. rewrite join_room_userRooms in Hsome.
      apply elem_of_connected.
      destruct (decide (c = sid)) as [->|Hne].
      * rewrite join_room_own, Hrs0. eauto.
      * rewrite join_room_other by done. apply elem_of_connected, Hdom.
        by rewrite lookup_insert_ne in Hsome.
  - revert Hstep. unfold step. case_bool_decide as Hc; simpl;
      intros [-> _]%Ok_inv; [|by split].
    split; simpl.
    + intros c rs Hrs r. rewrite lookup_delete in Hrs. case_decide; [done|].
      rewrite lookup_delete_ne by done. by apply Hsub.
    + intros c Hsome. rewrite lookup_delete in Hsome.
      case_decide; [by destruct Hsome|].
      unfold connected. simpl. rewrite dom_delete_L.
      apply elem_of_difference. split; [by apply Hdom|].
      by intros ?%elem_of_singleton.
Qed.

Lemma orderly_events_keep_agreement_witness :
  let st := Sample.state_after Sample.lobby in
  ∃ st' out,
    step "sockA" (Sample.tick 5) (Join_room "Tech") st = Ok (st', out) ∧
    userRooms st !! "sockA" = Some "General" ∧
    subscriptions_in_step st ∧
    subscriptions_in_step st' ∧
    room_members st' "Tech" = {[ "sockA" ]} ∧
    room_members st' "General" = {[ "sockB" ]}.
Proof.
  intros st.
  pose (s1 := Sample.state_after [ Sample.input "sockA" 1 Connection ]).
  pose (s2 := Sample.state_after [ Sample.input "sockA" 1 Connection;
                                   Sample.input "sockB" 2 Connection ]).
  pose (s3 := Sample.state_after [ Sample.input "sockA" 1 Connection;
                                   Sample.input "sockB" 2 Connection;
                                   Sample.input "sockA" 3 (User_join "alice") ]).
  assert (subscriptions_in_step init) as H0.
  { split.
    - intros c rs Hrs. simpl in Hrs. by rewrite lookup_empty in Hrs.
    - intros c [? Hc]. simpl in Hc. by rewrite lookup_empty in Hc. }
  assert (subscriptions_in_step s1) as H1.
  { eapply (orderly_events_keep_agreement "sockA" (Sample.tick 1) Connection init);
      [exact H0 | exact I | vm_compute; reflexivity]. }
  assert (subscriptions_in_step s2) as H2.
  { eapply (orderly_events_keep_agreement "sockB" (Sample.tick 2) Connection s1);
      [exact H1 | exact I | vm_compute; reflexivity]. }
  assert (subscriptions_in_step s3) as H3.
  { eapply (orderly_events_keep_agreement "sockA" (Sample.tick 3)
              (User_join "alice") s2);
      [exact H2 | left; vm_compute; reflexivity | vm_compute; reflexivity]. }
  assert (subscriptions_in_step st) as H4.
  { eapply (orderly_events_keep_agreement "sockB" (Sample.tick 4)
              (User_join "bob") s3);
      [exact H3 | left; vm_compute; reflexivity | vm_compute; reflexivity]. }
  assert (userRooms st !! "sockA" = Some "General") as Hroom
    by (vm_compute; reflexivity).
  assert (∃ st' out,
            step "sockA" (Sample.tick 5) (Join_room "Tech") st = Ok (st', out)
            ∧ room_members st' "Tech" = {[ "sockA" ]}
            ∧ room_members st' "General" = {[ "sockB" ]})
    as (st' & out & Hstep & Htech & Hgen).
  { eexists _, _. split; [vm_compute; reflexivity|].
    split; vm_compute; reflexivity. }
  exists st', out. split; [exact Hstep|]. split; [exact Hroom|].
  split; [exact H4|]. split; [|by split].
  eapply (orderly_events_keep_agreement "sockA" (Sample.tick 5)
            (Join_room "Tech") st); [exact H4 | | exact Hstep].
  simpl. rewrite Hroom. split; discriminate.
Defined.

(** ** Typing indicator *)

(** X9: the typing indicator is global and needs a registered socket.  A
    [typing] event of a connected socket without registry entry changes
    nothing and emits nothing.  For a registered socket it sets (on [true])
    or removes (on [false]) the socket's entry, leaves every other entry and
    every other store alone, and sends the full list of typing usernames to
    every connected socket, whatever room it is in. *)
Theorem typing_is_broadcast_to_everyone (sid : string) (clk : Clock)
    (isTyping : bool) (st : State) :
  sid ∈ connected st →
  (JS.get sid (users st) = None →
     step sid clk (Typing isTyping) st = Ok (st, [])) ∧
  (∀ u, JS.get sid (users st) = Some u →
     ∃ st' e,
       step sid clk (Typing isTyping) st = Ok (st', [e]) ∧
       e_to e = connected st ∧
       e_data e = P_typing_users (JS.values (typingUsers st')) ∧
       JS.get sid (typingUsers st')
       = (if isTyping then Some (username u) else None) ∧
       (∀ k, k ≠ sid → JS.get k (typingUsers st') = JS.get k (typingUsers st)) ∧
       users st' = users st ∧ messages st' = messages st ∧
       userRooms st' = userRooms st ∧ sids st' = sids st).
Proof.
  intros Hc. unfold step. rewrite bool_decide_eq_true_2 by done. simpl.
  unfold typing. split.
  - by intros ->.
  - intros u ->. eexists _, _. split; [reflexivity|]. simpl.
    split; [reflexivity|]. split; [reflexivity|].
    destruct isTyping.
    + split; [apply get_set_eq|]. split; [|done].
      intros k Hk. by apply get_set_ne.
    + split; [apply get_delete_eq|]. split; [|done].
      intros k Hk. by apply get_delete_ne.
Qed.

Lemma typing_is_broadcast_to_everyone_witness :
  let st := Sample.state_after
              (Sample.lobby ++ [ Sample.input "sockB" 5 (Join_room "Tech") ]) in
  ∃ st' e,
    step "sockA" (Sample.tick 6) (Typing true) st = Ok (st', [e]) ∧
    e_to e = {[ "sockA"; "sockB" ]} ∧
    e_data e = P_typing_users [ "alice" ].
Proof.
  intros st.
  assert ("sockA" ∈ connected st) as Hc.
  { apply (bool_decide_unpack _). vm_compute. exact I. }
  destruct (typing_is_broadcast_to_everyone "sockA" (Sample.tick 6) true st Hc)
    as [_ Hreg].
  destruct (Hreg {| username := "alice"; user_id := "sockA" |})
    as (st' & e & Hstep & Hto & Hdata & _); [vm_compute; reflexivity|].
  exists st', e. split; [exact Hstep|]. split.
  - rewrite Hto. vm_compute. reflexivity.
  - rewrite Hdata. f_equal.
    injection Hstep as <- _. vm_compute. reflexivity.
Defined.

(** X10: starting and stopping to type is a round trip.  For a registered
    connected socket without typing entry, [typing(true)] followed by
    [typing(false)] gives back the state it started from; and repeating a
    [typing] event with the same flag changes nothing the second time. *)
Theorem typing_round_trip (sid : string) (clk clk' : Clock) (st : State) :
  sid ∈ connected st → is_Some (JS.get sid (users st)) →
  (JS.get sid (typingUsers st) = None →
     ∃ st1 out1 out2,
       step sid clk (Typing true) st = Ok (st1, out1) ∧
       step sid clk' (Typing false) st1 = Ok (st, out2)) ∧
  (∀ b, ∃ st1 out1 out2,
     step sid clk (Typing b) st = Ok (st1, out1) ∧
     step sid clk' (Typing b) st1 = Ok (st1, out2)).
Proof.
  intros Hc [u Hu]. unfold step. rewrite bool_decide_eq_true_2 by done. simpl.
  unfold typing at 1 3. rewrite Hu.
  assert (∀ t, connected {| users := users st; messages := messages st;
                            typingUsers := t; userRooms := userRooms st;
                            sids := sids st |} = connected st) as Hconn by done.
  split.
  - intros Hnone. eexists _, _, _. split; [reflexivity|]. simpl.
    rewrite Hconn, bool_decide_eq_true_2 by done. simpl.
    unfold typing. simpl. rewrite Hu.
    rewrite delete_set_absent by done. by destruct st.
  - intros b. eexists _, _, _. split; [reflexivity|]. simpl.
    rewrite Hconn, bool_decide_eq_true_2 by done. simpl.
    unfold typing. simpl. rewrite Hu. do 3 f_equal. destruct b.
    + induction (typingUsers st) as [|[k v] o IH]; simpl.
      * by rewrite String.eqb_refl.
      * destruct (String.eqb_spec sid k) as [->|Hne]; simpl.
        -- by rewrite String.eqb_refl.
        -- destruct (String.eqb_spec sid k); [done|]. by rewrite IH.
    + apply delete_absent, get_delete_eq.
Qed.

Lemma typing_round_trip_witness :
  let st := Sample.state_after Sample.lobby in
  ∃ st1 out1 out2,
    step "sockA" (Sample.tick 5) (Typing true) st = Ok (st1, out1) ∧
    step "sockA" (Sample.tick 6) (Typing false) st1 = Ok (st, out2).
Proof.
  intros st.
  assert ("sockA" ∈ connected st) as Hc.
  { apply (bool_decide_unpack _). vm_compute. exact I. }
  assert (is_Some (JS.get "sockA" (users st))) as Hu
    by (eexists; vm_compute; reflexivity).
  destruct (typing_round_trip "sockA" (Sample.tick 5) (Sample.tick 6) st Hc Hu)
    as [Hrt _].
  apply Hrt. vm_compute. reflexivity.
Defined.

(** ** Sessions *)

Lemma run_cons_Ok i tr st st1 out1 st2 out2 :
  step (i_sid i) (i_clk i) (i_ev i) st = Ok (st1, out1) →
  run tr st1 = Ok (st2, out2) →
  run (i :: tr) st = Ok (st2, out1 ++ out2).
Proof. intros H1 H2. simpl. rewrite H1. simpl. by rewrite H2. Qed.

(** X11: a session that only joins leaves no trace.  When a socket that is
    not connected connects, joins under any name and disconnects, the four
    stores and the adapter's table are afterwards exactly what they were
    before, in every reachable state. *)
Theorem join_only_session_leaves_no_trace (sid name : string)
    (c1 c2 c3 : Clock) (st : State) :
  reachable st → sid ∉ connected st →
  ∃ out,
    run [ {| i_sid := sid; i_clk := c1; i_ev := Connection |};
          {| i_sid := sid; i_clk := c2; i_ev := User_join name |};
          {| i_sid := sid; i_clk := c3; i_ev := Disconnect |} ] st
    = Ok (st, out).
Proof.
  intros Hwf%reachable_Wellformed Hc.
  assert (userRooms st !! sid = None) as Hroom.
  { destruct (userRooms st !! sid) eqn:E; [|done].
    destruct Hc. apply (room_connected st Hwf). eauto. }
  assert (JS.get sid (users st) = None) as Huser.
  { destruct (JS.get sid (users st)) eqn:E; [|done].
    destruct (registered_has_room st Hwf sid) as [? ?]; [eauto | congruence]. }
  assert (JS.get sid (typingUsers st) = None) as Htyping.
  { destruct (JS.get sid (typingUsers st)) eqn:E; [|done].
    destruct (typing_registered st Hwf sid) as [? ?]; [eauto | congruence]. }
  assert (sids st !! sid = None) as Hsid.
  { destruct (sids st !! sid) eqn:E; [|done].
    destruct Hc. apply elem_of_connected. eauto. }
  set (st1 := with_sids (<[sid := {[sid]}]>) st).
  assert (step sid c1 Connection st = Ok (st1, [])) as H1.
  { unfold step. by rewrite bool_decide_eq_false_2. }
  assert (sid ∈ connected st1) as Hc1.
  { apply elem_of_connected. simpl. rewrite lookup_insert_eq. eauto. }
  set (st2 := (user_join sid name st1).1).
  assert (step sid c2 (User_join name) st1
          = Ok (st2, (user_join sid name st1).2)) as H2.
  { unfold step. by rewrite bool_decide_eq_true_2. }
  assert (sid ∈ connected st2) as Hc2.
  { apply elem_of_connected. simpl. rewrite lookup_alter_eq, lookup_insert_eq.
    eauto. }
  assert ((disconnect sid (with_sids (base.delete sid) st2)).1 = st) as Hback.
  { destruct st as [us ms ts rs ss]. simpl in *. f_equal.
    - by apply delete_set_absent.
    - by apply delete_absent.
    - by apply delete_insert_id.
    - rewrite delete_alter_eq. by apply delete_insert_id. }
  assert (step sid c3 Disconnect st2
          = Ok (st, (disconnect sid (with_sids (base.delete sid) st2)).2)) as H3.
  { unfold step. rewrite bool_decide_eq_true_2 by done. unfold handle.
    f_equal. apply injective_projections; [exact Hback | reflexivity]. }
  eexists.
  eapply run_cons_Ok; [exact H1|]. eapply run_cons_Ok; [exact H2|].
  eapply run_cons_Ok; [exact H3|]. reflexivity.
Qed.

Lemma join_only_session_leaves_no_trace_witness :
  let st := Sample.state_after Sample.lobby in
  ∃ out,
    run [ Sample.input "sockC" 5 Connection;
          Sample.input "sockC" 6 (User_join "carol");
          Sample.input "sockC" 7 Disconnect ] st
    = Ok (st, out).
Proof.
  intros st.
  apply (join_only_session_leaves_no_trace "sockC" "carol" _ _ _ st lobby_reachable).
  apply (bool_decide_unpack _). vm_compute. exact I.
Defined.

(** X12: who is told about a departure.  A [disconnect] of a connected
    socket announces [user_left], with the socket's username and id, only
    when the socket was registered; in both cases it then broadcasts the
    presence list and the typing list.  Every emission goes to all sockets
    that remain connected. *)
Theorem disconnect_announcements (sid : string) (clk : Clock) (st : State) :
  sid ∈ connected st →
  ∃ st' out,
    step sid clk Disconnect st = Ok (st', out) ∧
    Forall (λ e, e_to e = connected st ∖ {[sid]}) out ∧
    e_data <$> out
    = match JS.get sid (users st) with
      | Some u => [ P_user_left {| username := username u; user_id := sid |} ]
      | None => []
      end ++ [ P_user_list (api_users st');
               P_typing_users (JS.values (typingUsers st')) ].
Proof.
  intros Hc. unfold step. rewrite bool_decide_eq_true_2 by done. simpl.
  eexists _, _. split; [reflexivity|]. unfold disconnect. simpl.
  assert (dom (base.delete sid (sids st)) = connected st ∖ {[sid]}) as Hdom
    by apply dom_delete_L.
  destruct (JS.get sid (users st)); simpl; (split; [by repeat constructor | done]).
Qed.

Lemma disconnect_announcements_witness :
  let st := Sample.state_after (Sample.lobby ++ [ Sample.input "sockC" 5 Connection ]) in
  ∃ st' out,
    step "sockC" (Sample.tick 6) Disconnect st = Ok (st', out) ∧
    Forall (λ e, e_to e = {[ "sockA"; "sockB" ]}) out ∧
    length out = 2%nat.
Proof.
  intros st.
  assert ("sockC" ∈ connected st) as Hc.
  { apply (bool_decide_unpack _). vm_compute. exact I. }
  destruct (disconnect_announcements "sockC" (Sample.tick 6) st Hc)
    as (st' & out & Hstep & Hto & Hdata).
  exists st', out. split; [exact Hstep|]. split.
  - eapply Forall_impl; [exact Hto|]. intros e ->. vm_compute. reflexivity.
  - rewrite <- (length_fmap e_data), Hdata. reflexivity.
Defined.

(** X13: every presence broadcast is the registry at that moment.  Whatever
    event is processed, each [user_list] it emits carries exactly what
    [/api/users] returns in the state the event leaves. *)
Theorem user_list_is_current_registry (sid : string) (clk : Clock) (ev : Event)
    (st st' : State) (out : list Emission) (e : Emission) (l : list User) :
  step sid clk ev st = Ok (st', out) →
  e ∈ out → e_data e = P_user_list l →
  l = api_users st'.
Proof. apply step_user_list. Qed.

Lemma user_list_is_current_registry_witness :
  ∃ st' out,
    step "sockA" (Sample.tick 9) (User_join "alicia")
      (Sample.state_after Sample.lobby) = Ok (st', out) ∧
    ∀ e l, e ∈ out → e_data e = P_user_list l → l = api_users st'.
Proof.
  destruct (step "sockA" (Sample.tick 9) (User_join "alicia")
              (Sample.state_after Sample.lobby)) as [[st' out]|err] eqn:Hstep;
    [|by vm_compute in Hstep].
  exists st', out. split; [reflexivity|]. intros e l.
  by apply (user_list_is_current_registry _ _ _ _ _ _ _ _ Hstep).
Defined.

(** ** Receipts and the ledger *)

Section Mutation_facts.
Implicit Types (l : list Message) (m : Message) (i : Z).

Lemma replace_found_envelopes i m m' l :
  find_by_id i l = Some m → envelope m' = envelope m →
  envelope <$> replace_found i m' l = envelope <$> l.
Proof.
  intros Hf He. induction l as [|m0 l IH]; simpl in *; [done|].
  destruct (Z.eqb_spec (m_id m0) i).
  - injection Hf as ->. simpl. by rewrite He.
  - simpl. f_equal. by apply IH.
Qed.

(** A message whose id differs from the one looked up is not the one
    mutated. *)
Lemma replace_found_other_id i m' l j mj :
  l !! j = Some mj → m_id mj ≠ i → replace_found i m' l !! j = Some mj.
Proof.
  revert j. induction l as [|m0 l IH]; intros j Hj Hid; [done|]. simpl.
  destruct (Z.eqb_spec (m_id m0) i) as [E|E].
  - destruct j as [|j]; [|done]. simpl in Hj. congruence.
  - destruct j as [|j]; [done|]. simpl in *. by apply IH.
Qed.

(** A message behind an older one with the same id is never the one
    mutated. *)
Lemma replace_found_shadowed i m' l k j mk mj :
  (k < j)%nat → l !! k = Some mk → l !! j = Some mj → m_id mk = m_id mj →
  replace_found i m' l !! j = Some mj.
Proof.
  revert k j. induction l as [|m0 l IH]; intros k j Hlt Hk Hj Hid; [done|].
  simpl. destruct j as [|j]; [lia|]. simpl in Hj.
  destruct (Z.eqb_spec (m_id m0) i) as [E|E]; [done|]. simpl.
  destruct k as [|k]; simpl in Hk.
  - injection Hk as ->. apply replace_found_other_id; [done | congruence].
  - apply (IH k j); [lia | done | done | done].
Qed.

(** The ledger after an event that is not [send_message] or
    [private_message]: untouched, or one found message mutated in its
    [readBy] or [reactions]. *)
Lemma step_ledger sid clk ev st st' out :
  is_message_event ev = false → step sid clk ev st = Ok (st', out) →
  messages st' = messages st ∨
  ∃ i m m', find_by_id i (messages st) = Some m ∧ envelope m' = envelope m ∧
            messages st' = replace_found i m' (messages st).
Proof.
  intros Hev. unfold step.
  destruct ev; try discriminate; case_bool_decide; unfold handle;
    [| | | | | | | | | |
     unfold react_message;
     destruct (find_by_id messageId (messages st)) as [msg|] eqn:Hf;
       [destruct (JS.read_prop _ reaction); simpl; try discriminate|]
     | | |];
    intros [-> _]%Ok_inv; try (left; simpl; done).
  - left. unfold join_room. cbv zeta.
    destruct (userRooms st !! sid) as [p|]; [destruct (JS.truthy p)|];
      reflexivity.
  - left. unfold typing. destruct (JS.get sid (users st)); reflexivity.
  - unfold read_message.
    destruct (find_by_id messageId (messages st)) as [msg|] eqn:Hf;
      [|left; reflexivity].
    destruct (my_username sid st) as [user|]; [|left; reflexivity].
    destruct (JS.truthy user && _); [|left; reflexivity].
    right. eexists _, msg, _. split; [exact Hf|].
    split; [|reflexivity]. reflexivity.
  - right. eexists _, msg, _. split; [exact Hf|].
    split; [|reflexivity]. reflexivity.
  - right. eexists _, msg, _. split; [exact Hf|].
    split; [|reflexivity]. reflexivity.
Qed.
End Mutation_facts.

(** X14: where a read receipt goes.  When a registered socket with a
    non-empty username reads a stored message it has not read yet, its
    username is appended to the message's [readBy] and one [message_read]
    with the new array is sent: for a private message to the room named by
    the original sender's id, for a room message to the message's room.  The
    reader need not be a recipient of the message. *)
Theorem read_receipt_routing (sid : string) (clk : Clock) (i : Z) (u : User)
    (msg : Message) (st : State) :
  reachable st → sid ∈ connected st →
  JS.get sid (users st) = Some u → username u ≠ "" →
  find_by_id i (messages st) = Some msg →
  Some (username u) ∉ m_readBy msg →
  ∃ st' room,
    step sid clk (Read_message i) st
    = Ok (st', [ io_to st' room
                   (P_message_read i (m_readBy msg ++ [Some (username u)])) ]) ∧
    (if m_isPrivate msg then room = m_senderId msg else m_room msg = Some room) ∧
    find_by_id i (messages st')
    = Some (set_readBy (m_readBy msg ++ [Some (username u)]) msg) ∧
    room_members st' room = room_members st room.
Proof.
  intros Hwf%reachable_Wellformed Hc Hu Hne Hf Hnin.
  unfold step. rewrite bool_decide_eq_true_2 by done. unfold handle.
  rewrite (read_message_found sid i st u msg Hu Hne Hf).
  assert (JS.includes (Some (username u)) (m_readBy msg) = false) as ->.
  { destruct (JS.includes _ _) eqn:E; [|done]. by apply includes_iff in E. }
  pose proof (find_by_id_Some _ _ _ Hf) as [Hin Hid].
  destruct (messages_scoped st Hwf msg Hin) as [room Hroom].
  cbv zeta. rewrite Hroom. eexists _, room. split; [reflexivity|].
  split; [|split; [|done]].
  - unfold scope_target in Hroom. destruct (m_isPrivate msg); [congruence|].
    by destruct (JS.truthy_opt (m_room msg)).
  - simpl. apply find_replace_found; [by rewrite Hf | exact Hid].
Qed.

Lemma read_receipt_routing_witness :
  let st := Sample.state_after
              (Sample.lobby ++
               [ Sample.input "sockA" 5 (Private_message "sockB" "psst") ]) in
  ∃ st',
    step "sockB" (Sample.tick 6) (Read_message 5) st
    = Ok (st', [ io_to st' "sockA"
                   (P_message_read 5 [Some "alice"; Some "bob"]) ]).
Proof.
  intros st.
  assert (reachable st) as Hreach.
  { eapply (run_reachable
              (Sample.lobby ++
               [ Sample.input "sockA" 5 (Private_message "sockB" "psst") ])
              init); [apply reach_init|].
    vm_compute. reflexivity. }
  assert ("sockB" ∈ connected st) as Hc.
  { apply (bool_decide_unpack _). vm_compute. exact I. }
  destruct (read_receipt_routing "sockB" (Sample.tick 6) 5
              {| username := "bob"; user_id := "sockB" |}
              (direct_message "sockA" (Sample.tick 5) "psst"
                 (Sample.state_after Sample.lobby)) st Hreach Hc)
    as (st' & room & Hstep & Hroom & _).
  - vm_compute. reflexivity.
  - discriminate.
  - vm_compute. reflexivity.
  - intros ?%list_elem_of_singleton. discriminate.
  - exists st'. simpl in Hroom. by subst room.
Defined.

(** X15: a reader without a usable name is ignored.  A [read_message] event
    of a connected socket that is not registered, or is registered under the
    empty username, changes nothing and emits nothing, whether or not the
    message exists. *)
Theorem read_message_needs_username (sid : string) (clk : Clock) (i : Z)
    (st : State) :
  sid ∈ connected st →
  JS.get sid (users st) = None ∨
    (∃ u, JS.get sid (users st) = Some u ∧ username u = "") →
  step sid clk (Read_message i) st = Ok (st, []).
Proof.
  intros Hc Hu. unfold step. rewrite bool_decide_eq_true_2 by done.
  unfold handle, read_message, my_username.
  destruct (find_by_id i (messages st)); [|done].
  destruct Hu as [->|(u & -> & Hname)]; simpl; [done|]. by rewrite Hname.
Qed.

Lemma read_message_needs_username_witness :
  let st := Sample.state_after
              (Sample.lobby ++ [ Sample.input "sockA" 5 (Send_message Sample.hi);
                                 Sample.input "sockC" 6 Connection ]) in
  step "sockC" (Sample.tick 7) (Read_message 5) st = Ok (st, []).
Proof.
  intros st. apply read_message_needs_username.
  - apply (bool_decide_unpack _). vm_compute. exact I.
  - left. vm_compute. reflexivity.
Defined.

(** X16: stored messages are only ever annotated.  An event other than
    [send_message] and [private_message] never adds, removes or reorders
    messages and never changes a message's id, sender, sender id, body,
    timestamp, room, privacy flag, attachment or [to] field; only [readBy]
    and [reactions] can differ afterwards. *)
Theorem ledger_is_only_annotated (sid : string) (clk : Clock) (ev : Event)
    (st st' : State) (out : list Emission) :
  is_message_event ev = false → step sid clk ev st = Ok (st', out) →
  envelope <$> messages st' = envelope <$> messages st.
Proof.
  intros Hev Hstep.
  destruct (step_ledger _ _ _ _ _ _ Hev Hstep)
    as [->|(i & m & m' & Hf & He & ->)]; [done|].
  by eapply replace_found_envelopes.
Qed.

Lemma ledger_is_only_annotated_witness :
  let st := Sample.state_after
              (Sample.lobby ++ [ Sample.input "sockA" 5 (Send_message Sample.hi) ]) in
  ∃ st' out,
    step "sockB" (Sample.tick 6) (Read_message 5) st = Ok (st', out) ∧
    envelope <$> messages st' = envelope <$> messages st.
Proof.
  intros st.
  destruct (step "sockB" (Sample.tick 6) (Read_message 5) st)
    as [[st' out]|err] eqn:Hstep; [|by vm_compute in Hstep].
  exists st', out. split; [reflexivity|].
  by apply (ledger_is_only_annotated "sockB" (Sample.tick 6) (Read_message 5)
              st st' out).
Defined.

(** X17: an id collision hides the newer message.  When two stored messages
    have the same id, no [read_message], [react_message] or other
    non-message event ever changes the newer one: receipts and reactions for
    that id always land on the older message. *)
Theorem shadowed_message_is_never_updated (sid : string) (clk : Clock) (ev : Event)
    (st st' : State) (out : list Emission) (k j : nat) (older newer : Message) :
  (k < j)%nat →
  messages st !! k = Some older → messages st !! j = Some newer →
  m_id older = m_id newer →
  is_message_event ev = false → step sid clk ev st = Ok (st', out) →
  messages st' !! j = Some newer.
Proof.
  intros Hlt Hk Hj Hid Hev Hstep.
  destruct (step_ledger _ _ _ _ _ _ Hev Hstep)
    as [->|(i & m & m' & Hf & He & ->)]; [done|].
  by eapply replace_found_shadowed.
Qed.

Lemma shadowed_message_is_never_updated_witness :
  let st := Sample.state_after
              (Sample.lobby ++ [ Sample.input "sockA" 5 (Send_message Sample.hi);
                                 Sample.input "sockA" 5 (Send_message Sample.hi) ]) in
  ∃ st' out newer,
    step "sockB" (Sample.tick 6) (Read_message 5) st = Ok (st', out) ∧
    messages st' !! 1%nat = Some newer ∧
    m_readBy newer = [Some "alice"].
Proof.
  intros st.
  destruct (step "sockB" (Sample.tick 6) (Read_message 5) st)
    as [[st' out]|err] eqn:Hstep; [|by vm_compute in Hstep].
  exists st', out,
    (room_message "sockA" (Sample.tick 5) Sample.hi (Sample.state_after Sample.lobby)).
  split; [reflexivity|]. split; [|reflexivity].
  eapply (shadowed_message_is_never_updated "sockB" (Sample.tick 6) (Read_message 5)
            st st' out 0 1); [lia | | | | reflexivity | exact Hstep];
    vm_compute; reflexivity.
Defined.
